(** * Inventory reconciliation (PSP, Go): a shallow embedding

    The Go program reads a product catalog and a list of transactions,
    applies the transactions to the catalog in place
    ([procesarTransacciones]) and writes a low-stock report
    ([generarReporteBajoStock]).  This file embeds both functions and proves
    the properties the specification states about them.  It then embeds
    the readers and the writer of the inventory ([leerInventario],
    [leerTransacciones], [escribirInventario]) on the records the csv
    package exchanges with them, and [dereference] of Pruebas/hola.

    Conventions of the embedding:
    - Go's [int] is the 64-bit two's-complement integer of the usual targets
      (amd64, arm64); it is a [Z] together with an explicit wrap-around;
    - Go strings are byte strings ([string]); [float64] is [PrimFloat.float];
    - the slice [productos] is a [list Producto] read with [!!] and written
      with [<[ _ := _ ]>]; an index outside the slice is a run-time panic,
      modelled by [None];
    - [map[string]int] is a [gmap string nat]: the values are positions in
      the slice, which the code only stores and reads back. *)

From Stdlib Require Import ZArith Floats Ascii DecimalString DecimalPos.
From stdpp Require Import base option list gmap strings.

Local Open Scope Z_scope.

(** ** Go's [int] *)

Module GoInt.

Definition intSize : Z := 64.
Definition minInt : Z := - 2 ^ (intSize - 1).
Definition maxInt : Z := 2 ^ (intSize - 1) - 1.

(** Two's-complement reduction of an exact result to [intSize] bits. *)
Definition wrap (z : Z) : Z :=
  (z - minInt) mod 2 ^ intSize + minInt.

Definition inRange (z : Z) : Prop := minInt <= z <= maxInt.

(** [a + b] and [a - b] on [int]. *)
Definition add (a b : Z) : Z := wrap (a + b).
Definition sub (a b : Z) : Z := wrap (a - b).

(** [strconv.Itoa] and the verb [%d]: decimal digits, a leading [-] for
    negative numbers. *)
Definition itoa (z : Z) : string := NilZero.string_of_int (Z.to_int z).

End GoInt.

(** ** Data *)

Record Producto := mkProducto {
  ID : string;
  Nombre : string;
  Categoria : string;
  Precio : float;
  Stock : Z
}.

Record Transaccion := mkTransaccion {
  Tipo : string;
  IDProducto : string;
  Cantidad : Z;
  Fecha : string
}.

(** [productos[pos].Stock = s]: the only field the engine ever assigns. *)
Definition setStock (p : Producto) (s : Z) : Producto :=
  {| ID := ID p; Nombre := Nombre p; Categoria := Categoria p;
     Precio := Precio p; Stock := s |}.

(** ** The error messages ([fmt.Sprintf]) *)

Definition msgNoEncontrado (t : Transaccion) : string :=
  "ERROR: Producto " +:+ IDProducto t
    +:+ " no encontrado en transacción de tipo " +:+ Tipo t
    +:+ " (fecha: " +:+ Fecha t +:+ ")".

Definition msgStockInsuficiente (p : Producto) (t : Transaccion) : string :=
  "ERROR: Stock insuficiente para venta. Producto: " +:+ ID p
    +:+ ", Stock actual: " +:+ GoInt.itoa (Stock p)
    +:+ ", Cantidad solicitada: " +:+ GoInt.itoa (Cantidad t)
    +:+ " (fecha: " +:+ Fecha t +:+ ")".

Definition msgTipoDesconocido (t : Transaccion) : string :=
  "ERROR: Tipo de transacción desconocido '" +:+ Tipo t
    +:+ "' para producto " +:+ IDProducto t
    +:+ " (fecha: " +:+ Fecha t +:+ ")".

(** ** procesarTransacciones *)

(** The state of the main loop: the caller's slice, mutated in place, and
    the local [errores]. *)
Record Estado := mkEstado {
  productos : list Producto;
  errores : list string
}.

(** [for i, p := range productos { index[p.ID] = i }], from position [i]. *)
Fixpoint indexar (i : nat) (ps : list Producto) (index : gmap string nat)
  : gmap string nat :=
  match ps with
  | [] => index
  | p :: ps' => indexar (S i) ps' (<[ID p := i]> index)
  end.

Definition construirIndice (ps : list Producto) : gmap string nat :=
  indexar 0 ps ∅.

(** One iteration of [for _, t := range transacciones].  [None] is the
    panic of [productos[pos]] with [pos] outside the slice. *)
Definition paso (index : gmap string nat) (st : Estado) (t : Transaccion)
  : option Estado :=
  match index !! IDProducto t with
  | None =>
      Some (mkEstado (productos st) (errores st ++ [msgNoEncontrado t]))
  | Some pos =>
      p ← productos st !! pos;
      if decide (Tipo t = "VENTA") then
        if decide (Stock p < Cantidad t) then
          Some (mkEstado (productos st)
                         (errores st ++ [msgStockInsuficiente p t]))
        else
          Some (mkEstado
                  (<[pos := setStock p (GoInt.sub (Stock p) (Cantidad t))]>
                     (productos st))
                  (errores st))
      else if decide (Tipo t = "COMPRA") then
        Some (mkEstado
                (<[pos := setStock p (GoInt.add (Stock p) (Cantidad t))]>
                   (productos st))
                (errores st))
      else if decide (Tipo t = "DEVOLUCION") then
        Some (mkEstado
                (<[pos := setStock p (GoInt.add (Stock p) (Cantidad t))]>
                   (productos st))
                (errores st))
      else
        Some (mkEstado (productos st)
                       (errores st ++ [msgTipoDesconocido t]))
  end.

(** The loop over the transactions, in input order. *)
Fixpoint bucle (index : gmap string nat) (st : Estado)
    (ts : list Transaccion) : option Estado :=
  match ts with
  | [] => Some st
  | t :: ts' => st' ← paso index st t; bucle index st' ts'
  end.

(** The whole function: the resulting state holds the mutated slice the
    caller keeps and the returned [errores]. *)
Definition procesarTransacciones (ps : list Producto)
    (ts : list Transaccion) : option Estado :=
  bucle (construirIndice ps) (mkEstado ps []) ts.

(** ** generarReporteBajoStock *)

Definition nl : string := String (Ascii.ascii_of_nat 10) "".

(** [fmt.Fprintln(f, s)] on the text already written to [f]. *)
Definition fprintln (f s : string) : string := f +:+ s +:+ nl.

Definition lineaProducto (p : Producto) : string :=
  "ID: " +:+ ID p +:+ " | " +:+ Nombre p
    +:+ " | Stock actual: " +:+ GoInt.itoa (Stock p) +:+ " unidades" +:+ nl.

Definition lineaTotal (count : Z) : string :=
  "Total de productos con bajo stock: " +:+ GoInt.itoa count +:+ nl.

(** [for _, p := range productos { if p.Stock < limite { ...; count++ } }]
    on the text written so far and the counter. *)
Fixpoint listar (limite : Z) (ps : list Producto) (f : string) (count : Z)
  : string * Z :=
  match ps with
  | [] => (f, count)
  | p :: ps' =>
      if decide (Stock p < limite)
      then listar limite ps' (f +:+ lineaProducto p) (GoInt.add count 1)
      else listar limite ps' f count
  end.

(** [creado] is the outcome of [os.Create]: the (empty) text of the new file
    or the error.  The result is the text of the file when the function
    returns [nil], and the wrapped error otherwise. *)
Definition generarReporteBajoStock (creado : string + string)
    (ps : list Producto) (limite : Z) : string + string :=
  match creado with
  | inr err => inr ("no se pudo crear reporte bajo stock: " +:+ err)
  | inl f =>
      let f := fprintln f "ALERTA: PRODUCTOS CON BAJO STOCK" in
      let f := fprintln f "================================" in
      let '(f, count) := listar limite ps f 0 in
      inl (f +:+ lineaTotal count)
  end.

(** ** Notions of the specification *)

(** The part of a product no transaction may change. *)
Definition marco (p : Producto) : string * string * string * float :=
  (ID p, Nombre p, Categoria p, Precio p).

(** The identifier [id] names some product of the catalog. *)
Definition presente (ps : list Producto) (id : string) : Prop :=
  ∃ p, p ∈ ps ∧ ID p = id.

(** Position [pos] holds the last product of [ps] whose identifier is
    [id]. *)
Definition esUltimo (ps : list Producto) (id : string) (pos : nat) : Prop :=
  (∃ p, ps !! pos = Some p ∧ ID p = id) ∧
  ∀ k q, (pos < k)%nat → ps !! k = Some q → ID q ≠ id.

(** The product a transaction on [id] is about: the last one of the
    catalog with that identifier (the only one in a catalog without
    duplicates). *)
Definition objetivo (ps : list Producto) (id : string) : option Producto :=
  last (filter (λ p, ID p = id) ps).

(** The three ways in which a transaction fails on a catalog. *)
Definition noEncontrado (ps : list Producto) (t : Transaccion) : Prop :=
  ¬ presente ps (IDProducto t).

Definition stockInsuficiente (ps : list Producto) (t : Transaccion) : Prop :=
  Tipo t = "VENTA" ∧
  match objetivo ps (IDProducto t) with
  | Some p => Stock p < Cantidad t
  | None => False
  end.

Definition tipoDesconocido (ps : list Producto) (t : Transaccion) : Prop :=
  presente ps (IDProducto t) ∧
  Tipo t ≠ "VENTA" ∧ Tipo t ≠ "COMPRA" ∧ Tipo t ≠ "DEVOLUCION".

Definition falla (ps : list Producto) (t : Transaccion) : Prop :=
  noEncontrado ps t ∨ stockInsuficiente ps t ∨ tipoDesconocido ps t.

#[global] Instance presente_dec ps id : Decision (presente ps id).
Proof.
  refine (cast_if (decide (Exists (λ p, ID p = id) ps)));
    unfold presente; rewrite Exists_exists in *; done.
Defined.

#[global] Instance stockInsuficiente_dec ps t :
  Decision (stockInsuficiente ps t).
Proof.
  unfold stockInsuficiente.
  destruct (objetivo ps (IDProducto t)); apply _.
Defined.

#[global] Instance falla_dec ps t : Decision (falla ps t).
Proof. unfold falla, noEncontrado, tipoDesconocido. apply _. Defined.

(** The catalog as the run over [ts] leaves it. *)
Definition catalogoTras (ps : list Producto) (ts : list Transaccion)
  : list Producto :=
  match procesarTransacciones ps ts with
  | Some st => productos st
  | None => ps
  end.

(** The number of transactions of [ts] that fail, each one judged on the
    catalog the transactions before it ([hechas], then the earlier ones of
    [ts]) have left. *)
Fixpoint contarFallos (ps : list Producto) (hechas ts : list Transaccion)
  : nat :=
  match ts with
  | [] => 0
  | t :: ts' =>
      ((if decide (falla (catalogoTras ps hechas) t) then 1 else 0)
       + contarFallos ps (hechas ++ [t]) ts')%nat
  end.

Definition numFallos (ps : list Producto) (ts : list Transaccion) : nat :=
  contarFallos ps [] ts.

(** The products the report has to list, and the text of a list of
    lines. *)
Definition bajoStock (limite : Z) (ps : list Producto) : list Producto :=
  filter (λ p, Stock p < limite) ps.

Definition concatenar (lineas : list string) : string :=
  foldr String.append "" lineas.

(** What an iteration decides once its target [p] is found: the stock to
    write, if any, and the error records to add. *)
Definition decidir (p : Producto) (t : Transaccion)
  : option Z * list string :=
  if decide (Tipo t = "VENTA") then
    if decide (Stock p < Cantidad t)
    then (None, [msgStockInsuficiente p t])
    else (Some (GoInt.sub (Stock p) (Cantidad t)), [])
  else if decide (Tipo t = "COMPRA" ∨ Tipo t = "DEVOLUCION") then
    (Some (GoInt.add (Stock p) (Cantidad t)), [])
  else (None, [msgTipoDesconocido t]).

(** The effect of an iteration on the catalog alone, and the records it
    adds: the index is the one of the catalog it is given. *)
Definition efecto (ps : list Producto) (t : Transaccion)
  : list Producto * list string :=
  match construirIndice ps !! IDProducto t with
  | None => (ps, [msgNoEncontrado t])
  | Some pos =>
      match ps !! pos with
      | None => (ps, [])
      | Some p =>
          match decidir p t with
          | (Some s, e) => (<[pos := setStock p s]> ps, e)
          | (None, e) => (ps, e)
          end
      end
  end.

(** ** Go's [error] values and [strconv.Atoi] *)

(** The errors the program handles: a [*strconv.NumError] with its function,
    its input and its kind; an error of the operating system or of the csv
    package, by its message; and [fmt.Errorf(prefijo + "%w", err)]. *)
Inductive errKind := ErrSyntax | ErrRange.

Inductive error :=
  | NumError (Func Num : string) (Err : errKind)
  | ErrExterno (msg : string)
  | Errorf (prefijo : string) (err : error).

Module Strconv.

Definition maxUint64 : Z := 2 ^ 64 - 1.
Definition cutoff : Z := maxUint64 / 10 + 1.

(** A decimal digit, by its byte. *)
Definition digito (c : ascii) : option Z :=
  let n := Z.of_nat (nat_of_ascii c) in
  if decide (48 <= n <= 57) then Some (n - 48) else None.

(** The loop of [ParseUint] in base 10 on 64 bits, from the value [n] read
    so far: a byte that is not a digit is a syntax error, a value that
    leaves the 64 bits is a range error, whichever comes first. *)
Fixpoint parseUint (s : string) (n : Z) : errKind + Z :=
  match s with
  | EmptyString => inr n
  | String c s' =>
      match digito c with
      | None => inl ErrSyntax
      | Some d =>
          if decide (cutoff <= n) then inl ErrRange
          else if decide (maxUint64 < n * 10 + d) then inl ErrRange
          else parseUint s' (n * 10 + d)
      end
  end.

(** [strconv.Atoi]: an optional sign, then at least one digit, and a value
    that is an [int].  (Its fast path for short inputs computes the same
    result as [ParseInt(s, 10, 0)], which this follows.) *)
Definition atoi (s : string) : error + Z :=
  match s with
  | EmptyString => inl (NumError "Atoi" s ErrSyntax)
  | String c s' =>
      let neg := bool_decide (c = "-"%char) in
      let ds := if decide (c = "+"%char ∨ c = "-"%char) then s' else s in
      match ds with
      | EmptyString => inl (NumError "Atoi" s ErrSyntax)
      | _ =>
          match parseUint ds 0 with
          | inl k => inl (NumError "Atoi" s k)
          | inr un =>
              if neg then
                if decide (2 ^ 63 < un) then inl (NumError "Atoi" s ErrRange)
                else inr (- un)
              else
                if decide (2 ^ 63 <= un) then inl (NumError "Atoi" s ErrRange)
                else inr un
          end
      end
  end.

(** The value of a decimal numeral read from the left after [n]. *)
Fixpoint valorUint (d : Decimal.uint) (n : Z) : Z :=
  match d with
  | Decimal.Nil => n
  | Decimal.D0 d => valorUint d (n * 10 + 0)
  | Decimal.D1 d => valorUint d (n * 10 + 1)
  | Decimal.D2 d => valorUint d (n * 10 + 2)
  | Decimal.D3 d => valorUint d (n * 10 + 3)
  | Decimal.D4 d => valorUint d (n * 10 + 4)
  | Decimal.D5 d => valorUint d (n * 10 + 5)
  | Decimal.D6 d => valorUint d (n * 10 + 6)
  | Decimal.D7 d => valorUint d (n * 10 + 7)
  | Decimal.D8 d => valorUint d (n * 10 + 8)
  | Decimal.D9 d => valorUint d (n * 10 + 9)
  end.

End Strconv.

(** ** leerInventario, leerTransacciones, escribirInventario *)

(** What [os.Open] and [csv.Reader.ReadAll] hand to a reader: the error of
    the first, the error of the second, or the records of the file.  (A
    reader with the default settings only returns records that all have
    the number of fields of the first one; the loops below do not rely on
    it.) *)
Inductive lectura :=
  | AbrirFalla (err : error)
  | LeerFalla (err : error)
  | Registros (records : list (list string)).

Section Inventario.

(** [strconv.ParseFloat(s, 64)], [fmt.Sprintf("%.2f", x)], and the outcome
    of [csv.Writer.Write] for a record after those already written. *)
Variable parseFloat : string → errKind + float.
Variable formatPrecio : float → string.
Variable escribe : list (list string) → list string → option error.

(** [for i, rec := range records], from index [i], with the products
    appended so far.  A record matches the pattern exactly when
    [len(rec) >= 5]. *)
Fixpoint leerProductos (i : nat) (records : list (list string))
    (productos : list Producto) : error + list Producto :=
  match records with
  | [] => inr productos
  | rec :: records' =>
      if decide (i = 0%nat) then leerProductos (S i) records' productos
      else
        match rec with
        | id :: nombre :: categoria :: precio :: stock :: _ =>
            match parseFloat precio with
            | inl k =>
                inl (Errorf ("precio inválido en línea "
                               +:+ GoInt.itoa (Z.of_nat i + 1) +:+ ": ")
                       (NumError "ParseFloat" precio k))
            | inr precio' =>
                match Strconv.atoi stock with
                | inl err =>
                    inl (Errorf ("stock inválido en línea "
                                   +:+ GoInt.itoa (Z.of_nat i + 1) +:+ ": ")
                           err)
                | inr stock' =>
                    leerProductos (S i) records'
                      (productos
                         ++ [mkProducto id nombre categoria precio' stock'])
                end
            end
        | _ => leerProductos (S i) records' productos
        end
  end.

Definition leerInventario (f : lectura) : error + list Producto :=
  match f with
  | AbrirFalla err => inl (Errorf "no se pudo abrir inventario: " err)
  | LeerFalla err => inl (Errorf "error leyendo CSV inventario: " err)
  | Registros records => leerProductos 0 records []
  end.

Definition cabecera : list string :=
  ["ID"; "Nombre"; "Categoría"; "Precio"; "Stock"].

Definition registro (p : Producto) : list string :=
  [ID p; Nombre p; Categoria p; formatPrecio (Precio p);
   GoInt.itoa (Stock p)].

(** [for _, p := range productos { writer.Write(rec) }] after the records
    [w] already written. *)
Fixpoint escribirRegistros (ps : list Producto) (w : list (list string))
  : list (list string) * option error :=
  match ps with
  | [] => (w, None)
  | p :: ps' =>
      match escribe w (registro p) with
      | Some err => (w, Some (Errorf "error escribiendo registro: " err))
      | None => escribirRegistros ps' (w ++ [registro p])
      end
  end.

(** [creado] is the error of [os.Create], if any.  The result is the
    records the writer has accepted and the error returned. *)
Definition escribirInventario (creado : option error) (ps : list Producto)
  : list (list string) * option error :=
  match creado with
  | Some err =>
      ([], Some (Errorf "no se pudo crear archivo inventario actualizado: "
                   err))
  | None =>
      match escribe [] cabecera with
      | Some err => ([], Some (Errorf "error escribiendo cabecera: " err))
      | None => escribirRegistros ps [cabecera]
      end
  end.

End Inventario.

Fixpoint leerTrans (i : nat) (records : list (list string))
    (trans : list Transaccion) : error + list Transaccion :=
  match records with
  | [] => inr trans
  | rec :: records' =>
      if decide (i = 0%nat) then leerTrans (S i) records' trans
      else
        match rec with
        | tipo :: id :: cantidad :: fecha :: _ =>
            match Strconv.atoi cantidad with
            | inl err =>
                inl (Errorf ("cantidad inválida en línea "
                               +:+ GoInt.itoa (Z.of_nat i + 1) +:+ ": ")
                       err)
            | inr cant =>
                leerTrans (S i) records'
                  (trans ++ [mkTransaccion tipo id cant fecha])
            end
        | _ => leerTrans (S i) records' trans
        end
  end.

Definition leerTransacciones (f : lectura) : error + list Transaccion :=
  match f with
  | AbrirFalla err => inl (Errorf "no se pudo abrir transacciones: " err)
  | LeerFalla err => inl (Errorf "error leyendo CSV transacciones: " err)
  | Registros records => leerTrans 0 records []
  end.

(** A record of the transactions file and the transaction it stands for;
    a record of the inventory file and the product it stands for. *)
Definition transaccionDe (rec : list string) (t : Transaccion) : Prop :=
  ∃ tipo id cantidad fecha resto,
    rec = tipo :: id :: cantidad :: fecha :: resto ∧
    t = mkTransaccion tipo id (Cantidad t) fecha ∧
    Strconv.atoi cantidad = inr (Cantidad t).

Definition productoDe (parseFloat : string → errKind + float)
    (rec : list string) (p : Producto) : Prop :=
  ∃ id nombre categoria precio stock resto,
    rec = id :: nombre :: categoria :: precio :: stock :: resto ∧
    p = mkProducto id nombre categoria (Precio p) (Stock p) ∧
    parseFloat precio = inr (Precio p) ∧
    Strconv.atoi stock = inr (Stock p).

(** The records of a file that the readers can take in: each one is too
    short and skipped, or its numbers parse. *)
Definition filaTransOk (rec : list string) : Prop :=
  (length rec < 4)%nat ∨ ∃ t, transaccionDe rec t.

Definition filaProdOk (parseFloat : string → errKind + float)
    (rec : list string) : Prop :=
  (length rec < 5)%nat ∨ ∃ p, productoDe parseFloat rec p.

(** ** Pruebas/hola: dereference *)

(** [x = x ^ 2; return x]: in Go [^] between two operands is the bitwise
    exclusive or.  On two's-complement integers it is [Z.lxor]. *)
Definition dereference (x : Z) : Z := Z.lxor x 2.

(** ** Sample data

    A small catalog and a few transactions on which the statements below
    are evaluated, and the catalogs at the ends of the [int] range. *)

Definition teclado : Producto :=
  mkProducto "P1" "Teclado" "Perifericos" 19.5%float 5.
Definition monitor : Producto :=
  mkProducto "P2" "Monitor" "Pantallas" 149.5%float 10.
Definition catalogo : list Producto := [teclado; monitor].

Definition venta (id : string) (n : Z) : Transaccion :=
  mkTransaccion "VENTA" id n "2024-01-15".
Definition compra (id : string) (n : Z) : Transaccion :=
  mkTransaccion "COMPRA" id n "2024-01-16".
Definition devolucion (id : string) (n : Z) : Transaccion :=
  mkTransaccion "DEVOLUCION" id n "2024-01-17".
Definition ajuste (id : string) (n : Z) : Transaccion :=
  mkTransaccion "AJUSTE" id n "2024-01-18".

(** A product whose stock is the largest [int], and one whose stock is the
    smallest. *)
Definition almacenLleno : Producto :=
  mkProducto "P1" "Teclado" "Perifericos" 19.5%float GoInt.maxInt.
Definition almacenDeuda : Producto :=
  mkProducto "P1" "Teclado" "Perifericos" 19.5%float GoInt.minInt.

(** Stand-ins for [strconv.ParseFloat] and [fmt.Sprintf("%.2f", _)] on
    the two prices of the sample catalog, and a writer that never fails. *)
Definition parseFloatMuestra (s : string) : errKind + float :=
  if decide (s = "19.50") then inr 19.5%float
  else if decide (s = "149.50") then inr 149.5%float
  else inl ErrSyntax.

Definition formatPrecioMuestra (x : float) : string :=
  if PrimFloat.eqb x 19.5%float then "19.50" else "149.50".

Definition escribeSiempre (w : list (list string)) (rec : list string)
  : option error := None.

(** ** Go's [int]: the wrap-around *)

Module GoIntFacts.
Import GoInt.

Lemma wrap_inRange z : inRange z → wrap z = z.
Proof.
  unfold inRange, wrap, minInt, maxInt, intSize. intros H.
  rewrite Z.mod_small; lia.
Qed.

Lemma inRange_wrap z : inRange (wrap z).
Proof.
  unfold inRange, wrap, minInt, maxInt, intSize.
  pose proof (Z.mod_pos_bound (z - - 2 ^ (64 - 1)) (2 ^ 64) eq_refl).
  lia.
Qed.

Lemma sub_exact a b : inRange (a - b) → sub a b = a - b.
Proof. apply wrap_inRange. Qed.

Lemma add_exact a b : inRange (a + b) → add a b = a + b.
Proof. apply wrap_inRange. Qed.

Lemma sub_diag a : sub a a = 0.
Proof. unfold sub. rewrite Z.sub_diag. by apply wrap_inRange. Qed.

Lemma add_neg a b : add a b = sub a (- b).
Proof. unfold add, sub. f_equal. lia. Qed.

End GoIntFacts.

(** ** The index *)

Lemma indexar_snoc i ps p index :
  indexar i (ps ++ [p]) index
  = <[ID p := (i + length ps)%nat]> (indexar i ps index).
Proof.
  revert i index. induction ps as [|q ps IH]; intros i index; simpl.
  - by rewrite Nat.add_0_r.
  - rewrite IH. by replace (S i + length ps)%nat with (i + S (length ps))%nat by lia.
Qed.

Lemma construirIndice_snoc ps p :
  construirIndice (ps ++ [p]) = <[ID p := length ps]> (construirIndice ps).
Proof. unfold construirIndice. by rewrite indexar_snoc. Qed.

(** The index only depends on the identifiers, position by position. *)
Lemma indexar_ext i ps ps' index :
  ID <$> ps = ID <$> ps' → indexar i ps index = indexar i ps' index.
Proof.
  revert i ps' index.
  induction ps as [|p ps IH]; intros i [|p' ps'] index Heq; simplify_eq/=; auto.
  rewrite H. by apply IH.
Qed.

Lemma construirIndice_ext ps ps' :
  ID <$> ps = ID <$> ps' → construirIndice ps = construirIndice ps'.
Proof. apply indexar_ext. Qed.

Lemma esUltimo_snoc_eq ps p : esUltimo (ps ++ [p]) (ID p) (length ps).
Proof.
  split.
  - exists p. split; [|done]. by rewrite list_lookup_middle.
  - intros k q Hk Hq. apply lookup_lt_Some in Hq.
    rewrite length_app in Hq. simpl in Hq. lia.
Qed.

Lemma esUltimo_snoc_ne ps p id pos :
  ID p ≠ id → esUltimo (ps ++ [p]) id pos ↔ esUltimo ps id pos.
Proof.
  intros Hne. split.
  - intros [(q & Hq & Hid) Hlast].
    assert (pos < length ps)%nat as Hlt.
    { pose proof (lookup_lt_Some _ _ _ Hq) as Hl.
      rewrite length_app in Hl. simpl in Hl.
      destruct (decide (pos = length ps)) as [->|]; [|lia].
      rewrite list_lookup_middle in Hq; [|done]. congruence. }
    rewrite lookup_app_l in Hq by done. split; [eauto|].
    intros k r Hk Hr. apply (Hlast k r Hk).
    rewrite lookup_app_l; [done|]. by eapply lookup_lt_Some.
  - intros [(q & Hq & Hid) Hlast]. split.
    + exists q. split; [|done]. by apply lookup_app_l_Some.
    + intros k r Hk Hr. apply lookup_app_Some in Hr as [Hr|[_ Hr]].
      * by apply (Hlast k r).
      * apply list_lookup_singleton_Some in Hr as [_ <-]. done.
Qed.

Lemma esUltimo_unico ps id pos pos' :
  esUltimo ps id pos → esUltimo ps id pos' → pos = pos'.
Proof.
  intros [(p & Hp & Hid) Hlast] [(p' & Hp' & Hid') Hlast'].
  destruct (Nat.lt_trichotomy pos pos') as [Hlt|[->|Hlt]]; [|done|].
  - by destruct (Hlast _ _ Hlt Hp').
  - by destruct (Hlast' _ _ Hlt Hp).
Qed.

(** The index built by the code maps an identifier to the position of its
    last occurrence, and to nothing when it does not occur. *)
Lemma construirIndice_Some ps id pos :
  construirIndice ps !! id = Some pos ↔ esUltimo ps id pos.
Proof.
  revert pos. induction ps as [|p ps IH] using rev_ind; intros pos.
  - unfold construirIndice. simpl. rewrite lookup_empty. split; [done|].
    by intros [(p & Hp & _) _].
  - rewrite construirIndice_snoc. destruct (decide (ID p = id)) as [<-|Hne].
    + rewrite lookup_insert_eq. split.
      * intros [= <-]. apply esUltimo_snoc_eq.
      * intros H. f_equal. eapply esUltimo_unico; [apply esUltimo_snoc_eq|done].
    + rewrite lookup_insert_ne by done. rewrite IH.
      by rewrite esUltimo_snoc_ne.
Qed.

Lemma construirIndice_None ps id :
  construirIndice ps !! id = None ↔ ¬ presente ps id.
Proof.
  induction ps as [|p ps IH] using rev_ind.
  - unfold construirIndice. simpl. rewrite lookup_empty. split; [|done].
    intros _ (p & Hp & _). by apply elem_of_nil in Hp.
  - rewrite construirIndice_snoc. destruct (decide (ID p = id)) as [<-|Hne].
    + rewrite lookup_insert_eq. split; [done|]. intros H. destruct H.
      exists p. split; [|done]. apply elem_of_app. right. by apply list_elem_of_singleton.
    + rewrite lookup_insert_ne by done. rewrite IH. unfold presente. split.
      * intros H (q & Hq & Hid). apply elem_of_app in Hq as [Hq|Hq].
        -- apply H. eauto.
        -- apply list_elem_of_singleton in Hq. congruence.
      * intros H (q & Hq & Hid). apply H. exists q. split; [|done].
        apply elem_of_app. by left.
Qed.

Lemma presente_esUltimo ps id : presente ps id ↔ ∃ pos, esUltimo ps id pos.
Proof.
  split.
  - intros H. destruct (construirIndice ps !! id) as [pos|] eqn:E.
    + exists pos. by apply construirIndice_Some.
    + by apply construirIndice_None in E.
  - intros [pos [(p & Hp & Hid) _]]. exists p. split; [|done].
    by eapply list_elem_of_lookup_2.
Qed.

(** ** One iteration of the loop *)

Lemma marco_setStock p s : marco (setStock p s) = marco p.
Proof. done. Qed.

Lemma marco_insert (ps : list Producto) (pos : nat) p s :
  ps !! pos = Some p →
  marco <$> <[pos := setStock p s]> ps = marco <$> ps.
Proof.
  intros Hp. rewrite list_fmap_insert, marco_setStock.
  apply list_insert_id. by rewrite list_lookup_fmap, Hp.
Qed.

Lemma marco_ID (ps ps' : list Producto) : marco <$> ps = marco <$> ps' → ID <$> ps = ID <$> ps'.
Proof.
  intros H. change ID with ((λ m : string * string * string * float, m.1.1.1) ∘ marco).
  by rewrite !list_fmap_compose, H.
Qed.

(** What an iteration does, case by case, when the index is the one of the
    catalog it runs on. *)
Lemma paso_no_encontrado st t :
  ¬ presente (productos st) (IDProducto t) →
  paso (construirIndice (productos st)) st t
  = Some (mkEstado (productos st) (errores st ++ [msgNoEncontrado t])).
Proof.
  intros H. apply construirIndice_None in H. unfold paso. by rewrite H.
Qed.

Lemma paso_encontrado st t pos p :
  esUltimo (productos st) (IDProducto t) pos →
  productos st !! pos = Some p →
  paso (construirIndice (productos st)) st t
  = if decide (Tipo t = "VENTA") then
      if decide (Stock p < Cantidad t) then
        Some (mkEstado (productos st)
                       (errores st ++ [msgStockInsuficiente p t]))
      else
        Some (mkEstado
                (<[pos := setStock p (GoInt.sub (Stock p) (Cantidad t))]>
                   (productos st))
                (errores st))
    else if decide (Tipo t = "COMPRA" ∨ Tipo t = "DEVOLUCION") then
      Some (mkEstado
              (<[pos := setStock p (GoInt.add (Stock p) (Cantidad t))]>
                 (productos st))
              (errores st))
    else
      Some (mkEstado (productos st) (errores st ++ [msgTipoDesconocido t])).
Proof.
  intros Hu Hp. apply construirIndice_Some in Hu. unfold paso.
  rewrite Hu, Hp. simpl.
  destruct (decide (Tipo t = "VENTA")) as [Hv|Hv]; [done|].
  destruct (decide (Tipo t = "COMPRA")) as [Hc|Hc].
  { rewrite decide_True; auto. }
  destruct (decide (Tipo t = "DEVOLUCION")) as [Hd|Hd].
  { rewrite decide_True; auto. }
  rewrite decide_False; [done|]. by intros [?|?].
Qed.

(** An iteration never panics and keeps the frame of every product. *)
Lemma paso_marco st t :
  ∃ st', paso (construirIndice (productos st)) st t = Some st' ∧
         marco <$> productos st' = marco <$> productos st.
Proof.
  destruct (construirIndice (productos st) !! IDProducto t) as [pos|] eqn:E.
  - apply construirIndice_Some in E. pose proof E as [(p & Hp & _) _].
    rewrite (paso_encontrado st t pos p E Hp).
    repeat case_decide; eexists; (split; [done|]); simpl;
      by rewrite ?marco_insert.
  - apply construirIndice_None in E. rewrite paso_no_encontrado; eauto.
Qed.

(** ** The loop *)

Lemma bucle_app index st ts1 ts2 :
  bucle index st (ts1 ++ ts2)
  = bucle index st ts1 ≫= λ st1, bucle index st1 ts2.
Proof.
  revert st. induction ts1 as [|t ts1 IH]; intros st; simpl; [done|].
  destruct (paso index st t); simpl; auto.
Qed.

Lemma bucle_marco ps st ts :
  marco <$> productos st = marco <$> ps →
  ∃ st', bucle (construirIndice ps) st ts = Some st' ∧
         marco <$> productos st' = marco <$> ps.
Proof.
  revert st. induction ts as [|t ts IH]; intros st Hm; simpl; [eauto|].
  rewrite <- (construirIndice_ext (productos st) ps) by by apply marco_ID.
  destruct (paso_marco st t) as (st1 & -> & Hm1). simpl.
  rewrite (construirIndice_ext (productos st) ps) by by apply marco_ID.
  apply IH. by rewrite Hm1.
Qed.

(** [procesarTransacciones] always returns, and the catalog it leaves has
    the frame of the one it was given. *)
Lemma procesar_marco ps ts :
  ∃ st, procesarTransacciones ps ts = Some st ∧
        marco <$> productos st = marco <$> ps.
Proof. by apply bucle_marco. Qed.

Lemma procesar_indice ps ts st :
  procesarTransacciones ps ts = Some st →
  construirIndice (productos st) = construirIndice ps.
Proof.
  intros H. destruct (procesar_marco ps ts) as (st' & H' & Hm).
  simplify_eq. by apply construirIndice_ext, marco_ID.
Qed.

Lemma procesar_esUltimo ps ts st id pos :
  procesarTransacciones ps ts = Some st →
  esUltimo (productos st) id pos ↔ esUltimo ps id pos.
Proof.
  intros H. rewrite <- !construirIndice_Some.
  by rewrite (procesar_indice ps ts st).
Qed.

Lemma procesar_presente ps ts st id :
  procesarTransacciones ps ts = Some st →
  presente (productos st) id ↔ presente ps id.
Proof.
  intros H. rewrite !presente_esUltimo.
  by setoid_rewrite (procesar_esUltimo ps ts st id _ H).
Qed.

(** The run over [ts ++ [t]] is the run over [ts] followed by one iteration
    for [t] on the state reached. *)
Lemma procesar_snoc ps ts t :
  procesarTransacciones ps (ts ++ [t])
  = procesarTransacciones ps ts
      ≫= λ st, paso (construirIndice (productos st)) st t.
Proof.
  unfold procesarTransacciones at 1. rewrite bucle_app.
  fold (procesarTransacciones ps ts).
  destruct (procesarTransacciones ps ts) as [st|] eqn:E; simpl; [|done].
  rewrite (procesar_indice ps ts st E).
  by destruct (paso (construirIndice ps) st t).
Qed.

(** ... and the run over [ts ++ t :: ts'] goes on from there with [ts']. *)
Lemma procesar_sigue ps ts t ts' :
  procesarTransacciones ps (ts ++ t :: ts')
  = procesarTransacciones ps (ts ++ [t])
      ≫= λ st, bucle (construirIndice ps) st ts'.
Proof.
  unfold procesarTransacciones.
  by rewrite (cons_middle t ts ts'), (assoc_L (++)), bucle_app.
Qed.

(** After any run, the index still resolves a present identifier to the
    position of its last occurrence, in the given catalog and in the
    current one alike. *)
Lemma procesar_objetivo ps ts id :
  presente ps id →
  ∃ st pos p,
    procesarTransacciones ps ts = Some st ∧
    esUltimo ps id pos ∧ esUltimo (productos st) id pos ∧
    productos st !! pos = Some p ∧ ID p = id.
Proof.
  intros Hpres. destruct (procesar_marco ps ts) as (st & Hst & _).
  apply (procesar_presente ps ts st id Hst) in Hpres.
  apply presente_esUltimo in Hpres as [pos Hu].
  pose proof Hu as [(p & Hp & Hid) _].
  exists st, pos, p. split; [done|].
  split; [by apply (procesar_esUltimo ps ts st id pos Hst)|]. done.
Qed.

(** A COMPRA or a DEVOLUCION at the end of a run. *)
Lemma procesar_suma ps ts st t pos p :
  procesarTransacciones ps ts = Some st →
  esUltimo (productos st) (IDProducto t) pos →
  productos st !! pos = Some p →
  Tipo t = "COMPRA" ∨ Tipo t = "DEVOLUCION" →
  procesarTransacciones ps (ts ++ [t])
  = Some (mkEstado
            (<[pos := setStock p (GoInt.add (Stock p) (Cantidad t))]>
               (productos st))
            (errores st)).
Proof.
  intros Hst Hu Hp Hk. rewrite procesar_snoc, Hst. simpl.
  rewrite (paso_encontrado st t pos p Hu Hp).
  rewrite decide_False by (destruct Hk as [-> | ->]; discriminate).
  by rewrite decide_True.
Qed.

(** The reduction to 64 bits, written out. *)
Lemma wrap_explicito z :
  GoInt.wrap z = (z + 2 ^ 63) mod 2 ^ 64 - 2 ^ 63.
Proof.
  unfold GoInt.wrap, GoInt.minInt, GoInt.intSize.
  change (2 ^ (64 - 1)) with (2 ^ 63).
  replace (z - - 2 ^ 63) with (z + 2 ^ 63) by lia. lia.
Qed.

(** The state after [productos[pos].Stock = s]: the product at [pos] has
    stock [s], every other position and the error list are as before. *)
Lemma estado_actualizado st pos p s :
  productos st !! pos = Some p →
  ∃ st' p',
    st' = mkEstado (<[pos := setStock p s]> (productos st)) (errores st) ∧
    errores st' = errores st ∧
    productos st' !! pos = Some p' ∧
    (∀ k : nat, k ≠ pos → productos st' !! k = productos st !! k) ∧
    Stock p' = s.
Proof.
  intros Hp. eexists _, (setStock p s). split; [done|]. simpl.
  split; [done|]. split.
  { apply list_lookup_insert_eq. by eapply lookup_lt_Some. }
  split; [|done]. intros k Hk. by apply list_lookup_insert_ne.
Qed.

(** A COMPRA or a DEVOLUCION at the end of a run, on the stock. *)
Lemma procesar_suma_stock ps ts st t pos p :
  procesarTransacciones ps ts = Some st →
  esUltimo (productos st) (IDProducto t) pos →
  productos st !! pos = Some p →
  Tipo t = "COMPRA" ∨ Tipo t = "DEVOLUCION" →
  ∃ st' p',
    procesarTransacciones ps (ts ++ [t]) = Some st' ∧
    errores st' = errores st ∧
    productos st' !! pos = Some p' ∧
    (∀ k : nat, k ≠ pos → productos st' !! k = productos st !! k) ∧
    Stock p' = (Stock p + Cantidad t + 2 ^ 63) mod 2 ^ 64 - 2 ^ 63.
Proof.
  intros Hst Hu Hp Hk.
  destruct (estado_actualizado st pos p
              (GoInt.add (Stock p) (Cantidad t)) Hp)
    as (st' & p' & -> & He & Hp' & Hfr & Hs).
  eexists _, p'. split; [by apply procesar_suma|].
  do 3 (split; [done|]). rewrite Hs. apply wrap_explicito.
Qed.

(** ** The claims about a single transaction *)

(** C5.  A transaction whose target identifier is not in the catalog adds
    exactly one error record, the message built from the product id, the
    kind and the date, whatever its kind; the catalog is left as it was and
    the run goes on with the next transaction. *)
Theorem no_encontrado_un_error ps ts t ts' :
  ¬ presente ps (IDProducto t) →
  ∃ st, procesarTransacciones ps ts = Some st ∧
    procesarTransacciones ps (ts ++ [t])
    = Some (mkEstado (productos st)
              (errores st ++
                 ["ERROR: Producto " +:+ IDProducto t
                    +:+ " no encontrado en transacción de tipo " +:+ Tipo t
                    +:+ " (fecha: " +:+ Fecha t +:+ ")"])) ∧
    procesarTransacciones ps (ts ++ t :: ts')
    = bucle (construirIndice ps)
        (mkEstado (productos st) (errores st ++ [msgNoEncontrado t])) ts'.
Proof.
  intros Hno. destruct (procesar_marco ps ts) as (st & Hst & _).
  exists st. split; [done|].
  assert (procesarTransacciones ps (ts ++ [t])
          = Some (mkEstado (productos st) (errores st ++ [msgNoEncontrado t])))
    as Hsnoc.
  { rewrite procesar_snoc, Hst. simpl. apply paso_no_encontrado.
    by rewrite (procesar_presente ps ts st). }
  split; [done|]. by rewrite procesar_sigue, Hsnoc.
Qed.

Lemma no_encontrado_un_error_witness :
  ¬ presente catalogo "P9" ∧
  ∃ st, procesarTransacciones catalogo [venta "P1" 2] = Some st ∧
    procesarTransacciones catalogo ([venta "P1" 2] ++ [compra "P9" 3])
    = Some (mkEstado (productos st)
              (errores st ++
                 ["ERROR: Producto P9 no encontrado en transacción de tipo COMPRA (fecha: 2024-01-16)"])) ∧
    procesarTransacciones catalogo ([venta "P1" 2] ++ compra "P9" 3 :: [ajuste "P2" 1])
    = bucle (construirIndice catalogo)
        (mkEstado (productos st) (errores st ++ [msgNoEncontrado (compra "P9" 3)]))
        [ajuste "P2" 1].
Proof.
  assert (¬ presente catalogo "P9") as H.
  { apply construirIndice_None. vm_compute. reflexivity. }
  split; [exact H|].
  exact (no_encontrado_un_error catalogo [venta "P1" 2] (compra "P9" 3)
           [ajuste "P2" 1] H).
Defined.

(** C6.  A transaction on a product of the catalog whose kind is none of
    VENTA, COMPRA and DEVOLUCION adds exactly one error record, the message
    built from the kind, the product id and the date, and leaves the whole
    catalog, the target's stock included, as it was. *)
Theorem tipo_desconocido_un_error ps ts t :
  presente ps (IDProducto t) →
  Tipo t ≠ "VENTA" → Tipo t ≠ "COMPRA" → Tipo t ≠ "DEVOLUCION" →
  ∃ st, procesarTransacciones ps ts = Some st ∧
    procesarTransacciones ps (ts ++ [t])
    = Some (mkEstado (productos st)
              (errores st ++
                 ["ERROR: Tipo de transacción desconocido '" +:+ Tipo t
                    +:+ "' para producto " +:+ IDProducto t
                    +:+ " (fecha: " +:+ Fecha t +:+ ")"])).
Proof.
  intros Hpres Hv Hc Hd.
  destruct (procesar_objetivo ps ts _ Hpres)
    as (st & pos & p & Hst & Hu0 & Hu & Hp & Hid).
  exists st. split; [done|]. rewrite procesar_snoc, Hst. simpl.
  rewrite (paso_encontrado st t pos p Hu Hp).
  rewrite decide_False by done. rewrite decide_False; [done|]. by intros [?|?].
Qed.

Lemma tipo_desconocido_un_error_witness :
  ∃ st, procesarTransacciones catalogo [compra "P1" 4] = Some st ∧
    procesarTransacciones catalogo ([compra "P1" 4] ++ [ajuste "P1" 7])
    = Some (mkEstado (productos st)
              (errores st ++
                 ["ERROR: Tipo de transacción desconocido 'AJUSTE' para producto P1 (fecha: 2024-01-18)"])).
Proof.
  apply (tipo_desconocido_un_error catalogo [compra "P1" 4] (ajuste "P1" 7)).
  - exists teclado. split; [|reflexivity]. apply list_elem_of_here.
  - discriminate.
  - discriminate.
  - discriminate.
Defined.

(** C1, as the code has it.  For a VENTA on a product of the catalog, the
    index resolves the target to a position [pos] holding a product [p] with
    that identifier.  If [Stock p < Cantidad t], the run adds exactly one
    error record, built from the product id, the current stock, the
    requested quantity and the date, and the catalog is unchanged.
    Otherwise no error is added, no other position changes, and the
    product at [pos] afterwards has the stock [Stock p - Cantidad t]
    reduced to Go's 64-bit [int]: that is the exact difference as long as
    it does not exceed [maxInt], so for every quantity that is not
    negative on a stock that is an [int], and it is 0 when the quantity
    equals the stock. *)
Theorem venta_efecto ps ts t :
  Tipo t = "VENTA" →
  presente ps (IDProducto t) →
  ∃ st pos p,
    procesarTransacciones ps ts = Some st ∧
    esUltimo ps (IDProducto t) pos ∧
    productos st !! pos = Some p ∧ ID p = IDProducto t ∧
    (Stock p < Cantidad t →
       procesarTransacciones ps (ts ++ [t])
       = Some (mkEstado (productos st)
                 (errores st ++
                    ["ERROR: Stock insuficiente para venta. Producto: "
                       +:+ ID p
                       +:+ ", Stock actual: " +:+ GoInt.itoa (Stock p)
                       +:+ ", Cantidad solicitada: "
                       +:+ GoInt.itoa (Cantidad t)
                       +:+ " (fecha: " +:+ Fecha t +:+ ")"]))) ∧
    (Cantidad t <= Stock p →
       ∃ st' p',
         procesarTransacciones ps (ts ++ [t]) = Some st' ∧
         errores st' = errores st ∧
         productos st' !! pos = Some p' ∧
         (∀ k : nat, k ≠ pos → productos st' !! k = productos st !! k) ∧
         Stock p' = (Stock p - Cantidad t + 2 ^ 63) mod 2 ^ 64 - 2 ^ 63 ∧
         (Stock p - Cantidad t <= GoInt.maxInt →
            Stock p' = Stock p - Cantidad t) ∧
         (0 <= Cantidad t → Stock p <= GoInt.maxInt →
            Stock p' = Stock p - Cantidad t) ∧
         (Cantidad t = Stock p → Stock p' = 0)).
Proof.
  intros Hv Hpres.
  destruct (procesar_objetivo ps ts _ Hpres)
    as (st & pos & p & Hst & Hu0 & Hu & Hp & Hid).
  exists st, pos, p. repeat (split; [done|]).
  rewrite procesar_snoc, Hst. simpl.
  rewrite (paso_encontrado st t pos p Hu Hp), decide_True by done.
  split.
  - intros Hlt. by rewrite decide_True.
  - intros Hge. rewrite decide_False by lia.
    destruct (estado_actualizado st pos p
                (GoInt.sub (Stock p) (Cantidad t)) Hp)
      as (st' & p' & -> & He & Hp' & Hfr & Hs).
    eexists _, p'. do 4 (split; [done|]). rewrite Hs.
    assert (Stock p - Cantidad t <= GoInt.maxInt →
            GoInt.sub (Stock p) (Cantidad t) = Stock p - Cantidad t)
      as Hexacto.
    { intros Hmax. apply GoIntFacts.sub_exact.
      unfold GoInt.inRange, GoInt.minInt, GoInt.maxInt, GoInt.intSize in *.
      lia. }
    split; [apply wrap_explicito|]. split; [done|].
    split; [intros Hq Hs'; apply Hexacto; lia|].
    intros ->. apply GoIntFacts.sub_diag.
Qed.

Lemma venta_efecto_witness :
  ∃ st pos p,
    procesarTransacciones catalogo [compra "P1" 3] = Some st ∧
    esUltimo catalogo "P1" pos ∧
    productos st !! pos = Some p ∧ ID p = "P1" ∧
    (Stock p < 8 →
       procesarTransacciones catalogo ([compra "P1" 3] ++ [venta "P1" 8])
       = Some (mkEstado (productos st)
                 (errores st ++
                    ["ERROR: Stock insuficiente para venta. Producto: "
                       +:+ ID p
                       +:+ ", Stock actual: " +:+ GoInt.itoa (Stock p)
                       +:+ ", Cantidad solicitada: " +:+ GoInt.itoa 8
                       +:+ " (fecha: " +:+ "2024-01-15" +:+ ")"]))) ∧
    (8 <= Stock p →
       ∃ st' p',
         procesarTransacciones catalogo ([compra "P1" 3] ++ [venta "P1" 8])
         = Some st' ∧
         errores st' = errores st ∧
         productos st' !! pos = Some p' ∧
         (∀ k : nat, k ≠ pos → productos st' !! k = productos st !! k) ∧
         Stock p' = (Stock p - 8 + 2 ^ 63) mod 2 ^ 64 - 2 ^ 63 ∧
         (Stock p - 8 <= GoInt.maxInt → Stock p' = Stock p - 8) ∧
         (0 <= 8 → Stock p <= GoInt.maxInt → Stock p' = Stock p - 8) ∧
         (8 = Stock p → Stock p' = 0)).
Proof.
  apply (venta_efecto catalogo [compra "P1" 3] (venta "P1" 8)).
  - reflexivity.
  - exists teclado. split; [|reflexivity]. apply list_elem_of_here.
Defined.

(** The sentence of C1 on the new stock fails at the top of the [int]
    range: selling [-1] units of a product whose stock is [maxInt] is
    accepted ([-1 <= maxInt]) and leaves the stock at [minInt], which is not
    [maxInt - (-1)]. *)
Lemma venta_desborda_counterexample :
  Tipo (venta "P1" (-1)) = "VENTA" ∧
  presente [almacenLleno] "P1" ∧
  Cantidad (venta "P1" (-1)) <= Stock almacenLleno ∧
  ∃ p', procesarTransacciones [almacenLleno] ([] ++ [venta "P1" (-1)])
        = Some (mkEstado [p'] []) ∧
        Stock p' = -9223372036854775808 ∧
        Stock p' ≠ Stock almacenLleno - Cantidad (venta "P1" (-1)).
Proof.
  split; [reflexivity|]. split.
  { exists almacenLleno. split; [apply list_elem_of_here|reflexivity]. }
  split; [by vm_compute|].
  eexists. split; [vm_compute; reflexivity|]. split; [reflexivity|].
  by vm_compute.
Qed.

(** C7, as the code has it.  For a COMPRA or a DEVOLUCION on a product of
    the catalog, no error is added, no other position changes, and the
    product at the position [pos] the index resolves has afterwards the
    stock [Stock p + Cantidad t] reduced to Go's 64-bit [int], with no
    condition on the quantity or its sign: that is the exact sum whenever
    the sum lies in the [int] range.  A COMPRA and a DEVOLUCION with the
    same product and quantity leave the same state. *)
Theorem compra_devolucion_efecto ps ts t :
  Tipo t = "COMPRA" ∨ Tipo t = "DEVOLUCION" →
  presente ps (IDProducto t) →
  ∃ st pos p st' p',
    procesarTransacciones ps ts = Some st ∧
    esUltimo ps (IDProducto t) pos ∧
    productos st !! pos = Some p ∧ ID p = IDProducto t ∧
    procesarTransacciones ps (ts ++ [t]) = Some st' ∧
    errores st' = errores st ∧
    productos st' !! pos = Some p' ∧
    (∀ k : nat, k ≠ pos → productos st' !! k = productos st !! k) ∧
    Stock p' = (Stock p + Cantidad t + 2 ^ 63) mod 2 ^ 64 - 2 ^ 63 ∧
    (GoInt.minInt <= Stock p + Cantidad t <= GoInt.maxInt →
       Stock p' = Stock p + Cantidad t) ∧
    (∀ t', Tipo t' = "COMPRA" ∨ Tipo t' = "DEVOLUCION" →
           IDProducto t' = IDProducto t → Cantidad t' = Cantidad t →
           procesarTransacciones ps (ts ++ [t']) = Some st').
Proof.
  intros Hk Hpres.
  destruct (procesar_objetivo ps ts _ Hpres)
    as (st & pos & p & Hst & Hu0 & Hu & Hp & Hid).
  destruct (procesar_suma_stock ps ts st t pos p Hst Hu Hp Hk)
    as (st' & p' & Hst' & He & Hp' & Hfr & Hs).
  exists st, pos, p, st', p'. repeat (split; [done|]). split.
  - intros Hr. rewrite Hs, <- wrap_explicito.
    by apply GoIntFacts.wrap_inRange.
  - intros t' Hk' Hid' Hq'. rewrite <- Hid' in Hu.
    rewrite (procesar_suma ps ts st t' pos p Hst Hu Hp Hk'). rewrite Hid' in Hu.
    rewrite (procesar_suma ps ts st t pos p Hst Hu Hp Hk) in Hst'.
    by rewrite Hq'.
Qed.

Lemma compra_devolucion_efecto_witness :
  ∃ st pos p st' p',
    procesarTransacciones catalogo [venta "P2" 4] = Some st ∧
    esUltimo catalogo "P2" pos ∧
    productos st !! pos = Some p ∧ ID p = "P2" ∧
    procesarTransacciones catalogo ([venta "P2" 4] ++ [devolucion "P2" 3])
    = Some st' ∧
    errores st' = errores st ∧
    productos st' !! pos = Some p' ∧
    (∀ k : nat, k ≠ pos → productos st' !! k = productos st !! k) ∧
    Stock p' = (Stock p + 3 + 2 ^ 63) mod 2 ^ 64 - 2 ^ 63 ∧
    (GoInt.minInt <= Stock p + 3 <= GoInt.maxInt → Stock p' = Stock p + 3) ∧
    (∀ t', Tipo t' = "COMPRA" ∨ Tipo t' = "DEVOLUCION" →
           IDProducto t' = "P2" → Cantidad t' = 3 →
           procesarTransacciones catalogo ([venta "P2" 4] ++ [t'])
           = Some st').
Proof.
  apply (compra_devolucion_efecto catalogo [venta "P2" 4]
           (devolucion "P2" 3)).
  - right. reflexivity.
  - exists monitor. split; [|reflexivity].
    apply list_elem_of_further, list_elem_of_here.
Defined.

(** The sentence of C7 on the stock fails at the top of the [int] range:
    buying one unit of a product whose stock is [maxInt] leaves the stock
    at [minInt], not at [maxInt + 1]. *)
Lemma compra_desborda_counterexample :
  Tipo (compra "P1" 1) = "COMPRA" ∧
  presente [almacenLleno] "P1" ∧
  ∃ p', procesarTransacciones [almacenLleno] ([] ++ [compra "P1" 1])
        = Some (mkEstado [p'] []) ∧
        Stock p' = -9223372036854775808 ∧
        Stock p' ≠ Stock almacenLleno + Cantidad (compra "P1" 1).
Proof.
  split; [reflexivity|]. split.
  { exists almacenLleno. split; [apply list_elem_of_here|reflexivity]. }
  eexists. split; [vm_compute; reflexivity|]. split; [reflexivity|].
  by vm_compute.
Qed.

(** C10, as the code has it.  A COMPRA or a DEVOLUCION with a negative
    quantity on a product of the catalog adds no error and changes no
    other position; the product at [pos] has afterwards its stock less the
    absolute value of the quantity, reduced to Go's 64-bit [int]:
    whenever the exact difference lies in the [int] range the new stock is
    that difference, so it is lower than before, and it is negative as
    soon as the stock was below the absolute value.  Nothing on this path
    compares the stock with the quantity. *)
Theorem compra_negativa_efecto ps ts t :
  Tipo t = "COMPRA" ∨ Tipo t = "DEVOLUCION" →
  presente ps (IDProducto t) →
  Cantidad t < 0 →
  ∃ st pos p st' p',
    procesarTransacciones ps ts = Some st ∧
    esUltimo ps (IDProducto t) pos ∧
    productos st !! pos = Some p ∧ ID p = IDProducto t ∧
    procesarTransacciones ps (ts ++ [t]) = Some st' ∧
    errores st' = errores st ∧
    productos st' !! pos = Some p' ∧
    (∀ k : nat, k ≠ pos → productos st' !! k = productos st !! k) ∧
    Stock p'
    = (Stock p - Z.abs (Cantidad t) + 2 ^ 63) mod 2 ^ 64 - 2 ^ 63 ∧
    (GoInt.minInt <= Stock p - Z.abs (Cantidad t) <= GoInt.maxInt →
       Stock p' = Stock p - Z.abs (Cantidad t) ∧
       Stock p' < Stock p ∧
       (Stock p < Z.abs (Cantidad t) → Stock p' < 0)).
Proof.
  intros Hk Hpres Hneg.
  destruct (procesar_objetivo ps ts _ Hpres)
    as (st & pos & p & Hst & Hu0 & Hu & Hp & Hid).
  destruct (procesar_suma_stock ps ts st t pos p Hst Hu Hp Hk)
    as (st' & p' & Hst' & He & Hp' & Hfr & Hs).
  exists st, pos, p, st', p'. repeat (split; [done|]).
  replace (Stock p + Cantidad t) with (Stock p - Z.abs (Cantidad t)) in Hs
    by lia.
  split; [done|]. intros Hr.
  assert (Stock p' = Stock p - Z.abs (Cantidad t)) as Hexacto.
  { rewrite Hs, <- wrap_explicito. by apply GoIntFacts.wrap_inRange. }
  lia.
Qed.

Lemma compra_negativa_efecto_witness :
  ∃ st pos p st' p',
    procesarTransacciones catalogo [] = Some st ∧
    esUltimo catalogo "P1" pos ∧
    productos st !! pos = Some p ∧ ID p = "P1" ∧
    procesarTransacciones catalogo ([] ++ [compra "P1" (-8)]) = Some st' ∧
    errores st' = errores st ∧
    productos st' !! pos = Some p' ∧
    (∀ k : nat, k ≠ pos → productos st' !! k = productos st !! k) ∧
    Stock p' = (Stock p - Z.abs (-8) + 2 ^ 63) mod 2 ^ 64 - 2 ^ 63 ∧
    (GoInt.minInt <= Stock p - Z.abs (-8) <= GoInt.maxInt →
       Stock p' = Stock p - Z.abs (-8) ∧
       Stock p' < Stock p ∧
       (Stock p < Z.abs (-8) → Stock p' < 0)).
Proof.
  apply (compra_negativa_efecto catalogo [] (compra "P1" (-8))).
  - left. reflexivity.
  - exists teclado. split; [|reflexivity]. apply list_elem_of_here.
  - reflexivity.
Defined.

(** The sentence of C10 on the decrease fails at the bottom of the [int]
    range: a COMPRA of [-1] units of a product whose stock is [minInt]
    leaves the stock at [maxInt]: it went up, not down by one. *)
Lemma compra_negativa_desborda_counterexample :
  Tipo (compra "P1" (-1)) = "COMPRA" ∧
  presente [almacenDeuda] "P1" ∧
  Cantidad (compra "P1" (-1)) < 0 ∧
  ∃ p', procesarTransacciones [almacenDeuda] ([] ++ [compra "P1" (-1)])
        = Some (mkEstado [p'] []) ∧
        Stock p' = 9223372036854775807 ∧
        Stock almacenDeuda < Stock p' ∧
        Stock p' ≠ Stock almacenDeuda - Z.abs (Cantidad (compra "P1" (-1))).
Proof.
  split; [reflexivity|]. split.
  { exists almacenDeuda. split; [apply list_elem_of_here|reflexivity]. }
  split; [reflexivity|].
  eexists. split; [vm_compute; reflexivity|]. split; [reflexivity|].
  split; by vm_compute.
Qed.

(** C2, as the code has it.  In a catalog without duplicate identifiers,
    take a VENTA on the product at [pos].  A sale that would drive the
    stock below zero is refused: one error record, catalog unchanged.  A
    sale that is applied leaves the target's stock at 0 or more, provided
    the exact difference [Stock p - Cantidad t] does not exceed [maxInt],
    which is the case of every quantity that is not negative. *)
Theorem venta_no_deja_negativo ps ts t pos p0 :
  NoDup (ID <$> ps) →
  Tipo t = "VENTA" →
  ps !! pos = Some p0 → ID p0 = IDProducto t →
  ∃ st p,
    procesarTransacciones ps ts = Some st ∧
    productos st !! pos = Some p ∧
    (Stock p - Cantidad t < 0 →
       procesarTransacciones ps (ts ++ [t])
       = Some (mkEstado (productos st)
                 (errores st ++ [msgStockInsuficiente p t]))) ∧
    (0 <= Stock p - Cantidad t → Stock p - Cantidad t <= GoInt.maxInt →
       ∃ st' p',
         procesarTransacciones ps (ts ++ [t]) = Some st' ∧
         errores st' = errores st ∧
         productos st' !! pos = Some p' ∧
         Stock p' = Stock p - Cantidad t ∧ 0 <= Stock p').
Proof.
  intros Hnd Hv Hp0 Hid0.
  assert (esUltimo ps (IDProducto t) pos) as Hu0.
  { split; [eauto|]. intros k q Hk Hq Hidq.
    assert (pos = k); [|lia].
    apply (NoDup_lookup (ID <$> ps) pos k (IDProducto t) Hnd).
    - by rewrite list_lookup_fmap, Hp0; simpl; f_equal.
    - by rewrite list_lookup_fmap, Hq; simpl; f_equal. }
  destruct (procesar_marco ps ts) as (st & Hst & _).
  assert (esUltimo (productos st) (IDProducto t) pos) as Hu.
  { by apply (procesar_esUltimo ps ts st (IDProducto t) pos Hst). }
  pose proof Hu as [(p & Hp & Hid) _].
  exists st, p. repeat (split; [done|]).
  rewrite procesar_snoc, Hst. simpl.
  rewrite (paso_encontrado st t pos p Hu Hp), decide_True by done.
  split.
  - intros Hlt. rewrite decide_True by lia. done.
  - intros Hge Hmax. rewrite decide_False by lia.
    eexists _, _. split; [done|]. split; [done|]. simpl.
    split; [apply list_lookup_insert_eq; by eapply lookup_lt_Some|].
    simpl. rewrite GoIntFacts.sub_exact; [lia|].
    unfold GoInt.inRange, GoInt.minInt, GoInt.maxInt, GoInt.intSize in *.
    lia.
Qed.

Lemma venta_no_deja_negativo_witness :
  ∃ st p,
    procesarTransacciones catalogo [compra "P2" 2] = Some st ∧
    productos st !! 1%nat = Some p ∧
    (Stock p - 12 < 0 →
       procesarTransacciones catalogo ([compra "P2" 2] ++ [venta "P2" 12])
       = Some (mkEstado (productos st)
                 (errores st ++ [msgStockInsuficiente p (venta "P2" 12)]))) ∧
    (0 <= Stock p - 12 → Stock p - 12 <= GoInt.maxInt →
       ∃ st' p',
         procesarTransacciones catalogo ([compra "P2" 2] ++ [venta "P2" 12])
         = Some st' ∧
         errores st' = errores st ∧
         productos st' !! 1%nat = Some p' ∧
         Stock p' = Stock p - 12 ∧ 0 <= Stock p').
Proof.
  apply (venta_no_deja_negativo catalogo [compra "P2" 2] (venta "P2" 12)
           1%nat monitor).
  - apply (bool_decide_unpack _). vm_compute. exact I.
  - reflexivity.
  - reflexivity.
  - reflexivity.
Defined.

(** C2 fails at the top of the [int] range: in the catalog of the single
    product [almacenLleno], the sale of [-1] units is applied (no error) and
    leaves a negative stock. *)
Lemma venta_deja_negativo_counterexample :
  NoDup (ID <$> [almacenLleno]) ∧
  Tipo (venta "P1" (-1)) = "VENTA" ∧
  ∃ p', procesarTransacciones [almacenLleno] ([] ++ [venta "P1" (-1)])
        = Some (mkEstado [p'] []) ∧
        Stock p' < 0.
Proof.
  split; [apply (bool_decide_unpack _); vm_compute; exact I|].
  split; [reflexivity|].
  eexists. split; [vm_compute; reflexivity|]. by vm_compute.
Qed.

(** ** The claims about a whole run *)

(** C3.  Whatever the catalog and the transactions, the run returns, and the
    catalog it leaves has the length of the given one and, position by
    position, its identifiers, names, categories and prices: only stocks
    may differ.  (Every prefix of a sequence is a sequence, so this holds
    after each transaction.) *)
Theorem solo_cambia_el_stock ps ts :
  ∃ st, procesarTransacciones ps ts = Some st ∧
    length (productos st) = length ps ∧
    ID <$> productos st = ID <$> ps ∧
    Nombre <$> productos st = Nombre <$> ps ∧
    Categoria <$> productos st = Categoria <$> ps ∧
    Precio <$> productos st = Precio <$> ps.
Proof.
  destruct (procesar_marco ps ts) as (st & Hst & Hm).
  exists st. split; [done|]. split.
  { by rewrite <- (length_fmap marco), Hm, length_fmap. }
  split; [by apply marco_ID|].
  split; [|split].
  - change Nombre
      with ((λ m : string * string * string * float, m.1.1.2) ∘ marco).
    by rewrite !list_fmap_compose, Hm.
  - change Categoria
      with ((λ m : string * string * string * float, m.1.2) ∘ marco).
    by rewrite !list_fmap_compose, Hm.
  - change Precio
      with ((λ m : string * string * string * float, m.2) ∘ marco).
    by rewrite !list_fmap_compose, Hm.
Qed.

(** An iteration writes at most the position the index resolves. *)
Lemma paso_solo_objetivo st t st' (k : nat) :
  paso (construirIndice (productos st)) st t = Some st' →
  ¬ esUltimo (productos st) (IDProducto t) k →
  productos st' !! k = productos st !! k.
Proof.
  intros Hpaso Hk.
  destruct (construirIndice (productos st) !! IDProducto t) as [pos|] eqn:E.
  - apply construirIndice_Some in E. pose proof E as [(p & Hp & _) _].
    assert (pos ≠ k) as Hne by (by intros ->).
    rewrite (paso_encontrado st t pos p E Hp) in Hpaso.
    repeat case_decide; simplify_eq/=;
      by rewrite ?list_lookup_insert_ne by done.
  - apply construirIndice_None in E.
    rewrite (paso_no_encontrado st t E) in Hpaso. by simplify_eq/=.
Qed.

Lemma procesar_no_ultimo ps ts st (i : nat) :
  procesarTransacciones ps ts = Some st →
  (∀ id, ¬ esUltimo ps id i) →
  productos st !! i = ps !! i.
Proof.
  revert st. induction ts as [|t ts IH] using rev_ind; intros st Hst Hi.
  - unfold procesarTransacciones in Hst. by simplify_eq/=.
  - rewrite procesar_snoc in Hst.
    destruct (procesarTransacciones ps ts) as [st1|] eqn:E; [|done].
    simpl in Hst. rewrite (paso_solo_objetivo st1 t st i Hst).
    + by apply IH.
    + rewrite (procesar_esUltimo ps ts st1 _ _ E). apply Hi.
Qed.

(** C9.  Let the catalog hold a product [p] at [i] and a later product with
    the same identifier (at [j > i]).  The index built by the code maps every
    identifier to the position of its last occurrence; for this identifier
    that is a position [pos] after [i].  A transaction on the identifier
    changes no position other than [pos], and after any run the product at
    [i] is still [p], stock included. *)
Theorem duplicados_ultimo_gana ps ts (i j : nat) p q :
  ps !! i = Some p → ps !! j = Some q → (i < j)%nat → ID q = ID p →
  (∀ id pos', construirIndice ps !! id = Some pos' ↔ esUltimo ps id pos') ∧
  ∃ pos st,
    construirIndice ps !! ID p = Some pos ∧ (i < pos)%nat ∧
    procesarTransacciones ps ts = Some st ∧
    productos st !! i = Some p ∧
    ∀ t, IDProducto t = ID p →
      ∃ st', procesarTransacciones ps (ts ++ [t]) = Some st' ∧
             ∀ k : nat, k ≠ pos → productos st' !! k = productos st !! k.
Proof.
  intros Hp Hq Hij Hid.
  split; [apply construirIndice_Some|].
  assert (presente ps (ID p)) as Hpres.
  { exists p. split; [by eapply list_elem_of_lookup_2|done]. }
  destruct (procesar_objetivo ps ts _ Hpres)
    as (st & pos & p' & Hst & Hu0 & Hu & Hp' & Hid').
  assert (∀ id, ¬ esUltimo ps id i) as Hno.
  { intros id [(r & Hr & Hidr) Hlast]. simplify_eq.
    by apply (Hlast j q Hij Hq). }
  exists pos, st. split; [by apply construirIndice_Some|].
  split.
  { pose proof Hu0 as [_ Hlast]. destruct (decide (i < pos)%nat); [done|].
    destruct (decide (i = pos)) as [->|]; [by apply Hno in Hu0|].
    destruct (Hlast i p); [lia|done..]. }
  split; [done|].
  split; [by rewrite (procesar_no_ultimo ps ts st i Hst Hno)|].
  intros t Ht. destruct (procesar_marco ps (ts ++ [t])) as (st' & Hst' & _).
  exists st'. split; [done|]. intros k Hk.
  rewrite procesar_snoc, Hst in Hst'. simpl in Hst'.
  apply (paso_solo_objetivo st t st' k Hst').
  rewrite Ht. intros Hk'. destruct Hk.
  by apply (esUltimo_unico (productos st) (ID p)).
Qed.

Lemma duplicados_ultimo_gana_witness :
  (∀ id pos', construirIndice [teclado; monitor; setStock teclado 7] !! id
              = Some pos'
              ↔ esUltimo [teclado; monitor; setStock teclado 7] id pos') ∧
  ∃ pos st,
    construirIndice [teclado; monitor; setStock teclado 7] !! "P1" = Some pos ∧
    (0 < pos)%nat ∧
    procesarTransacciones [teclado; monitor; setStock teclado 7]
      [venta "P1" 6]
    = Some st ∧
    productos st !! 0%nat = Some teclado ∧
    ∀ t, IDProducto t = "P1" →
      ∃ st', procesarTransacciones [teclado; monitor; setStock teclado 7]
               ([venta "P1" 6] ++ [t])
             = Some st' ∧
             ∀ k : nat, k ≠ pos → productos st' !! k = productos st !! k.
Proof.
  apply (duplicados_ultimo_gana [teclado; monitor; setStock teclado 7]
           [venta "P1" 6] 0 2 teclado (setStock teclado 7)).
  - reflexivity.
  - reflexivity.
  - lia.
  - reflexivity.
Defined.

(** ** Counting the error records *)

Lemma objetivo_snoc ps p id :
  objetivo (ps ++ [p]) id
  = if decide (ID p = id) then Some p else objetivo ps id.
Proof.
  unfold objetivo. rewrite filter_app, filter_cons, filter_nil.
  case_decide; [apply last_snoc|by rewrite app_nil_r].
Qed.

(** The target of the specification is the product the index leads to. *)
Lemma objetivo_Some ps id pos p :
  esUltimo ps id pos → ps !! pos = Some p → objetivo ps id = Some p.
Proof.
  revert pos p. induction ps as [|x ps IH] using rev_ind; intros pos p Hu Hp.
  - done.
  - rewrite objetivo_snoc. case_decide as Hx.
    + subst id.
      rewrite (esUltimo_unico _ _ _ _ Hu (esUltimo_snoc_eq ps x)) in Hp.
      rewrite list_lookup_middle in Hp by done. done.
    + apply esUltimo_snoc_ne in Hu; [|done].
      pose proof Hu as [(p' & Hp' & _) _].
      rewrite (lookup_app_l_Some _ _ _ _ Hp') in Hp. simplify_eq.
      by apply (IH pos).
Qed.

(** The outcome of an iteration on the error list: one record in each of
    the three failure cases, none otherwise. *)
Lemma paso_errores st t :
  ∃ st', paso (construirIndice (productos st)) st t = Some st' ∧
    ((noEncontrado (productos st) t ∧
      errores st' = errores st ++ [msgNoEncontrado t]) ∨
     (stockInsuficiente (productos st) t ∧
      ∃ p, objetivo (productos st) (IDProducto t) = Some p ∧
           errores st' = errores st ++ [msgStockInsuficiente p t]) ∨
     (tipoDesconocido (productos st) t ∧
      errores st' = errores st ++ [msgTipoDesconocido t]) ∨
     (¬ falla (productos st) t ∧ errores st' = errores st)).
Proof.
  destruct (construirIndice (productos st) !! IDProducto t) as [pos|] eqn:E.
  - apply construirIndice_Some in E. pose proof E as [(p & Hp & Hid) _].
    pose proof (objetivo_Some _ _ _ _ E Hp) as Hobj.
    assert (presente (productos st) (IDProducto t)) as Hpres.
    { apply presente_esUltimo. eauto. }
    rewrite (paso_encontrado st t pos p E Hp).
    unfold falla, noEncontrado, stockInsuficiente, tipoDesconocido.
    rewrite Hobj.
    destruct (decide (Tipo t = "VENTA")) as [Hv|Hv].
    + destruct (decide (Stock p < Cantidad t)) as [Hlt|Hlt];
        eexists; (split; [done|]); simpl.
      * right; left. eauto.
      * do 3 right. split; [|done]. intros [?|[[_ ?]|(_ & ? & _)]]; done.
    + destruct (decide (Tipo t = "COMPRA" ∨ Tipo t = "DEVOLUCION"))
        as [Hk|Hk]; eexists; (split; [done|]); simpl.
      * do 3 right. split; [|done].
        intros [?|[[? _]|(_ & _ & ? & ?)]]; [done..|]. by destruct Hk.
      * do 2 right; left. split; [|done]. split; [done|].
        split; [done|]. split; intros ?; apply Hk; auto.
  - apply construirIndice_None in E. rewrite (paso_no_encontrado st t E).
    eexists. split; [done|]. left. done.
Qed.

Lemma paso_cuenta st t :
  ∃ st', paso (construirIndice (productos st)) st t = Some st' ∧
    length (errores st')
    = (length (errores st)
       + if decide (falla (productos st) t) then 1 else 0)%nat.
Proof.
  destruct (paso_errores st t) as (st' & Hpaso & Hcasos).
  exists st'. split; [done|].
  destruct Hcasos as [[H ->]|[[H (p & _ & ->)]|[[H ->]|[H ->]]]].
  - rewrite decide_True by (by left). by rewrite length_app.
  - rewrite decide_True by (by right; left). by rewrite length_app.
  - rewrite decide_True by (by right; right). by rewrite length_app.
  - rewrite decide_False by done. lia.
Qed.

Lemma contarFallos_ok ps hechas ts :
  ∃ st st',
    procesarTransacciones ps hechas = Some st ∧
    procesarTransacciones ps (hechas ++ ts) = Some st' ∧
    length (errores st')
    = (length (errores st) + contarFallos ps hechas ts)%nat.
Proof.
  revert hechas. induction ts as [|t ts IH]; intros hechas.
  - destruct (procesar_marco ps hechas) as (st & Hst & _).
    exists st, st. rewrite app_nil_r. simpl. split; [done|].
    split; [done|]. lia.
  - destruct (IH (hechas ++ [t])) as (st1 & st' & Hst1 & Hst' & Hlen).
    destruct (procesar_marco ps hechas) as (st & Hst & _).
    exists st, st'. split; [done|].
    split; [by rewrite (cons_middle t hechas ts), (assoc_L (++))|].
    rewrite Hlen. simpl. unfold catalogoTras. rewrite Hst.
    rewrite procesar_snoc, Hst in Hst1. simpl in Hst1.
    destruct (paso_cuenta st t) as (st1' & Hpaso & Hlen1).
    simplify_eq. rewrite Hlen1. lia.
Qed.

(** C4.  The run returns; the number of error records it returns is the
    number of transactions that fail in one of the three ways (target not
    found, sale with insufficient stock, unknown kind), each judged on the
    catalog as the transactions before it left it; and a further
    transaction [t] adds exactly one record when it fails in one of these
    ways and none when it does not. *)
Theorem errores_cuentan_fallos ps ts t :
  ∃ st st',
    procesarTransacciones ps ts = Some st ∧
    length (errores st) = numFallos ps ts ∧
    procesarTransacciones ps (ts ++ [t]) = Some st' ∧
    ((noEncontrado (productos st) t ∧
      errores st' = errores st ++ [msgNoEncontrado t]) ∨
     (stockInsuficiente (productos st) t ∧
      ∃ p, objetivo (productos st) (IDProducto t) = Some p ∧
           errores st' = errores st ++ [msgStockInsuficiente p t]) ∨
     (tipoDesconocido (productos st) t ∧
      errores st' = errores st ++ [msgTipoDesconocido t]) ∨
     (¬ falla (productos st) t ∧ errores st' = errores st)).
Proof.
  destruct (contarFallos_ok ps [] ts) as (st0 & st & Hst0 & Hst & Hlen).
  unfold procesarTransacciones in Hst0. simpl in *. simplify_eq.
  destruct (paso_errores st t) as (st' & Hpaso & Hcasos).
  exists st, st'. split; [done|]. split; [done|].
  split; [|done]. by rewrite procesar_snoc, Hst.
Qed.

(** ** The low-stock report *)

Lemma append_assoc (s1 s2 s3 : string) :
  (s1 +:+ s2) +:+ s3 = s1 +:+ (s2 +:+ s3).
Proof.
  induction s1 as [|c s1 IH]; [done|].
  change (String c ((s1 +:+ s2) +:+ s3) = String c (s1 +:+ (s2 +:+ s3))).
  by f_equal.
Qed.

Lemma append_nil_r (s : string) : s +:+ "" = s.
Proof.
  induction s as [|c s IH]; [done|].
  change (String c (s +:+ "") = String c s). by f_equal.
Qed.

(** The loop writes the lines of the products below the threshold, in
    catalog order, and counts them; the counter cannot overflow as long
    as it stays within the length of a slice. *)
Lemma listar_spec limite ps f count :
  GoInt.minInt <= count →
  count + Z.of_nat (length ps) <= GoInt.maxInt →
  listar limite ps f count
  = (f +:+ concatenar (lineaProducto <$> bajoStock limite ps),
     count + Z.of_nat (length (bajoStock limite ps))).
Proof.
  revert f count. induction ps as [|p ps IH]; intros f count Hmin Hmax.
  - simpl. by rewrite append_nil_r, Z.add_0_r.
  - simpl in Hmax. unfold bajoStock in *. rewrite filter_cons. simpl.
    destruct (decide (Stock p < limite)) as [Hlt|Hlt].
    + assert (GoInt.add count 1 = count + 1) as ->.
      { apply GoIntFacts.add_exact. unfold GoInt.inRange. lia. }
      rewrite IH by lia. simpl. rewrite append_assoc. f_equal. lia.
    + by apply IH; lia.
Qed.

(** C8.  For a catalog (a slice: its length is an [int]) and a threshold,
    the report written to the new file is the two header lines, then, for
    each product whose stock is strictly below the threshold and for no
    other, in catalog order, the line
    [ID: <id> | <name> | Stock actual: <stock> unidades], then the line
    with the total, which is the number of those products. *)
Theorem reporte_bajo_stock ps limite :
  Z.of_nat (length ps) <= GoInt.maxInt →
  generarReporteBajoStock (inl "") ps limite
  = inl ("ALERTA: PRODUCTOS CON BAJO STOCK" +:+ String "010"%char ""
           +:+ "================================" +:+ String "010"%char ""
           +:+ concatenar
                 ((λ p, "ID: " +:+ ID p +:+ " | " +:+ Nombre p
                          +:+ " | Stock actual: " +:+ GoInt.itoa (Stock p)
                          +:+ " unidades" +:+ String "010"%char "")
                    <$> bajoStock limite ps)
           +:+ "Total de productos con bajo stock: "
           +:+ GoInt.itoa (Z.of_nat (length (bajoStock limite ps)))
           +:+ String "010"%char "") ∧
  (∀ p, p ∈ bajoStock limite ps ↔ p ∈ ps ∧ Stock p < limite) ∧
  (∀ p, Stock p = limite → p ∉ bajoStock limite ps).
Proof.
  intros Hlen. split; [|split].
  - change (String "010"%char "") with nl.
    change (λ p, "ID: " +:+ ID p +:+ " | " +:+ Nombre p
                   +:+ " | Stock actual: " +:+ GoInt.itoa (Stock p)
                   +:+ " unidades" +:+ nl) with lineaProducto.
    unfold generarReporteBajoStock, fprintln.
    rewrite listar_spec
      by (unfold GoInt.minInt, GoInt.maxInt, GoInt.intSize in *; lia).
    simpl. unfold lineaTotal. by rewrite !append_assoc.
  - intros p. unfold bajoStock. by rewrite list_elem_of_filter, (comm and).
  - intros p Heq Hin. unfold bajoStock in Hin.
    apply list_elem_of_filter in Hin as [Hlt _]. lia.
Qed.

Lemma reporte_bajo_stock_witness :
  generarReporteBajoStock (inl "") catalogo 10
  = inl ("ALERTA: PRODUCTOS CON BAJO STOCK" +:+ String "010"%char ""
           +:+ "================================" +:+ String "010"%char ""
           +:+ concatenar
                 ((λ p, "ID: " +:+ ID p +:+ " | " +:+ Nombre p
                          +:+ " | Stock actual: " +:+ GoInt.itoa (Stock p)
                          +:+ " unidades" +:+ String "010"%char "")
                    <$> bajoStock 10 catalogo)
           +:+ "Total de productos con bajo stock: "
           +:+ GoInt.itoa (Z.of_nat (length (bajoStock 10 catalogo)))
           +:+ String "010"%char "") ∧
  (∀ p, p ∈ bajoStock 10 catalogo ↔ p ∈ catalogo ∧ Stock p < 10) ∧
  (∀ p, Stock p = 10 → p ∉ bajoStock 10 catalogo).
Proof.
  apply (reporte_bajo_stock catalogo 10). by vm_compute.
Defined.

(** ** Well-formed catalogs stay well-formed *)

(** Every stock the engine writes is an [int]: a catalog whose stocks are
    in the [int] range keeps them there through any run. *)
Lemma paso_inRange st t st' :
  Forall (λ p, GoInt.inRange (Stock p)) (productos st) →
  paso (construirIndice (productos st)) st t = Some st' →
  Forall (λ p, GoInt.inRange (Stock p)) (productos st').
Proof.
  intros Hall Hpaso.
  destruct (construirIndice (productos st) !! IDProducto t) as [pos|] eqn:E.
  - apply construirIndice_Some in E. pose proof E as [(p & Hp & _) _].
    rewrite (paso_encontrado st t pos p E Hp) in Hpaso.
    repeat case_decide; simplify_eq/=; try done;
      apply Forall_insert; try done; apply GoIntFacts.inRange_wrap.
  - apply construirIndice_None in E.
    rewrite (paso_no_encontrado st t E) in Hpaso. by simplify_eq/=.
Qed.

Lemma procesar_inRange ps ts st :
  Forall (λ p, GoInt.inRange (Stock p)) ps →
  procesarTransacciones ps ts = Some st →
  Forall (λ p, GoInt.inRange (Stock p)) (productos st).
Proof.
  intros Hall. revert st.
  induction ts as [|t ts IH] using rev_ind; intros st Hst.
  - unfold procesarTransacciones in Hst. by simplify_eq/=.
  - rewrite procesar_snoc in Hst.
    destruct (procesarTransacciones ps ts) as [st1|]; [|done].
    simpl in Hst. eapply paso_inRange; [|done]. by apply IH.
Qed.

(** ** The scenarios of the specification, evaluated *)

Example sin_transacciones :
  procesarTransacciones catalogo [] = Some (mkEstado catalogo []).
Proof. reflexivity. Qed.

Example venta_luego_compra :
  procesarTransacciones [teclado] [venta "P1" 5; compra "P1" 3]
  = Some (mkEstado [setStock teclado 3] []).
Proof. by vm_compute. Qed.

Example compra_luego_venta :
  procesarTransacciones [teclado] [compra "P1" 3]
  = Some (mkEstado [setStock teclado 8] []) ∧
  procesarTransacciones [teclado] [compra "P1" 3; venta "P1" 5]
  = Some (mkEstado [setStock teclado 3] []).
Proof. split; by vm_compute. Qed.

Example venta_excesiva :
  procesarTransacciones [teclado] [venta "P1" 6]
  = Some (mkEstado [teclado]
            ["ERROR: Stock insuficiente para venta. Producto: P1, Stock actual: 5, Cantidad solicitada: 6 (fecha: 2024-01-15)"]).
Proof. by vm_compute. Qed.

Example tres_fallos :
  numFallos catalogo
    [venta "P1" 6; compra "P1" 1; venta "P1" 6; ajuste "P2" 1; venta "P9" 1]
  = 3%nat ∧
  (errores <$> procesarTransacciones catalogo
     [venta "P1" 6; compra "P1" 1; venta "P1" 6; ajuste "P2" 1; venta "P9" 1])
  = Some
      ["ERROR: Stock insuficiente para venta. Producto: P1, Stock actual: 5, Cantidad solicitada: 6 (fecha: 2024-01-15)";
       "ERROR: Tipo de transacción desconocido 'AJUSTE' para producto P2 (fecha: 2024-01-18)";
       "ERROR: Producto P9 no encontrado en transacción de tipo VENTA (fecha: 2024-01-15)"].
Proof. split; by vm_compute. Qed.

Example reporte_creacion_fallida :
  generarReporteBajoStock (inr "permission denied") catalogo 10
  = inr "no se pudo crear reporte bajo stock: permission denied".
Proof. reflexivity. Qed.

Example compra_negativa_deja_negativo :
  procesarTransacciones catalogo [compra "P1" (-8)]
  = Some (mkEstado [setStock teclado (-3); monitor] []) ∧
  procesarTransacciones catalogo [venta "P1" 8]
  = Some (mkEstado catalogo
            ["ERROR: Stock insuficiente para venta. Producto: P1, Stock actual: 5, Cantidad solicitada: 8 (fecha: 2024-01-15)"]).
Proof. split; by vm_compute. Qed.

Example reporte_catalogo :
  generarReporteBajoStock (inl "") (catalogo ++ [setStock monitor (-1)]) 10
  = inl ("ALERTA: PRODUCTOS CON BAJO STOCK" +:+ nl
           +:+ "================================" +:+ nl
           +:+ "ID: P1 | Teclado | Stock actual: 5 unidades" +:+ nl
           +:+ "ID: P2 | Monitor | Stock actual: -1 unidades" +:+ nl
           +:+ "Total de productos con bajo stock: 2" +:+ nl).
Proof. by vm_compute. Qed.

(** * Further properties of the engine *)

(** ** Runs in batches *)

Lemma GoInt_wrap_add_l x y : GoInt.wrap (GoInt.wrap x + y) = GoInt.wrap (x + y).
Proof.
  unfold GoInt.wrap. f_equal.
  replace ((x - GoInt.minInt) mod 2 ^ GoInt.intSize + GoInt.minInt + y
           - GoInt.minInt)
    with ((x - GoInt.minInt) mod 2 ^ GoInt.intSize + y) by lia.
  rewrite Zplus_mod_idemp_l. f_equal. lia.
Qed.

Lemma GoInt_add_sub a b : GoInt.inRange a → GoInt.add (GoInt.sub a b) b = a.
Proof.
  intros Ha. unfold GoInt.add, GoInt.sub. rewrite GoInt_wrap_add_l.
  replace (a - b + b) with a by lia. by apply GoIntFacts.wrap_inRange.
Qed.

(** An iteration, through [efecto]. *)
Lemma paso_efecto st t :
  paso (construirIndice (productos st)) st t
  = Some (mkEstado (efecto (productos st) t).1
                   (errores st ++ (efecto (productos st) t).2)).
Proof.
  unfold efecto.
  destruct (construirIndice (productos st) !! IDProducto t) as [pos|] eqn:E.
  - apply construirIndice_Some in E. pose proof E as [(p & Hp & _) _].
    rewrite (paso_encontrado st t pos p E Hp), Hp. unfold decidir.
    repeat case_decide; simpl; by rewrite ?app_nil_r.
  - apply construirIndice_None in E. by rewrite paso_no_encontrado.
Qed.

Lemma efecto_marco ps t : marco <$> (efecto ps t).1 = marco <$> ps.
Proof.
  unfold efecto. destruct (construirIndice ps !! IDProducto t); [|done].
  destruct (ps !! n) as [p|] eqn:Hp; [|done].
  destruct (decidir p t) as [[s|] e]; [|done]. by apply marco_insert.
Qed.

(** The error records already there play no part in a run. *)
Lemma bucle_errores index ps e0 e ts :
  bucle index (mkEstado ps (e0 ++ e)) ts
  = (λ st, mkEstado (productos st) (e0 ++ errores st))
      <$> bucle index (mkEstado ps e) ts.
Proof.
  revert ps e. induction ts as [|t ts IH]; intros ps e; simpl; [done|].
  unfold paso. simpl.
  destruct (index !! IDProducto t) as [pos|]; simpl.
  - destruct (ps !! pos) as [p|]; simpl; [|done].
    repeat case_decide; rewrite <- ?(assoc_L (++)); apply IH.
  - rewrite <- (assoc_L (++)). apply IH.
Qed.

(** X1.  Running the transactions in two batches, the second on the catalog
    the first has left, gives the catalog of the single run over all of
    them, and the error records of the single run are those of the first
    batch followed by those of the second. *)
Theorem procesar_por_lotes ps ts1 ts2 :
  ∃ st1 st2,
    procesarTransacciones ps ts1 = Some st1 ∧
    procesarTransacciones (productos st1) ts2 = Some st2 ∧
    procesarTransacciones ps (ts1 ++ ts2)
    = Some (mkEstado (productos st2) (errores st1 ++ errores st2)).
Proof.
  destruct (procesar_marco ps ts1) as (st1 & Hst1 & Hm1).
  destruct (procesar_marco (productos st1) ts2) as (st2 & Hst2 & _).
  exists st1, st2. split; [done|]. split; [done|].
  unfold procesarTransacciones at 1. rewrite bucle_app.
  fold (procesarTransacciones ps ts1). rewrite Hst1. simpl.
  rewrite <- (procesar_indice ps ts1 st1 Hst1).
  destruct st1 as [ps1 e1]. simpl in *.
  rewrite <- (app_nil_r e1) at 1. rewrite bucle_errores.
  fold (procesarTransacciones ps1 ts2). by rewrite Hst2.
Qed.

Lemma procesar_errores_length ps ts st :
  procesarTransacciones ps ts = Some st →
  (length (errores st) <= length ts)%nat.
Proof.
  revert st. induction ts as [|t ts IH] using rev_ind; intros st Hst.
  - unfold procesarTransacciones in Hst. by simplify_eq/=.
  - rewrite procesar_snoc in Hst.
    destruct (procesarTransacciones ps ts) as [st1|]; [|done].
    simpl in Hst. destruct (paso_cuenta st1 t) as (st' & Hpaso & Hlen).
    simplify_eq. rewrite Hlen, length_app. simpl.
    specialize (IH st1 eq_refl). case_decide; lia.
Qed.

(** X2.  The error list only grows, by at most one record per transaction:
    the records of a run over [ts] are a prefix of those of any longer run
    [ts ++ ts'], and there are never more records than transactions. *)
Theorem errores_solo_crecen ps ts ts' :
  ∃ st st',
    procesarTransacciones ps ts = Some st ∧
    procesarTransacciones ps (ts ++ ts') = Some st' ∧
    errores st `prefix_of` errores st' ∧
    (length (errores st) <= length ts)%nat ∧
    (length (errores st') <= length (errores st) + length ts')%nat.
Proof.
  destruct (procesar_marco ps ts) as (st & Hst & _).
  exists st. induction ts' as [|t ts' IH] using rev_ind.
  - exists st. rewrite app_nil_r. split; [done|]. split; [done|].
    split; [done|]. split; [by eapply procesar_errores_length|].
    simpl. lia.
  - destruct IH as (st1 & _ & Hst1 & Hpre & Hlen & Hlen1).
    destruct (paso_cuenta st1 t) as (st' & Hpaso & Hcuenta).
    exists st'. split; [done|].
    rewrite (assoc_L (++)), procesar_snoc, Hst1. simpl.
    split; [done|]. rewrite paso_efecto in Hpaso. simplify_eq. simpl.
    split; [by apply prefix_app_r|]. split; [done|].
    simpl in Hcuenta. rewrite Hcuenta, length_app. simpl.
    case_decide; lia.
Qed.

(** ** A sale undone by a return *)

Lemma setStock_setStock p s s' : setStock (setStock p s) s' = setStock p s'.
Proof. done. Qed.

Lemma setStock_id p : setStock p (Stock p) = p.
Proof. by destruct p. Qed.

(** X3.  A VENTA that is applied, followed at once by a DEVOLUCION (or a
    COMPRA) of the same quantity on the same product, leaves the state
    exactly as it was before the two, catalog and error records alike.
    The stock before the sale only has to be an [int]: the two operations
    cancel even when the subtraction wraps around. *)
Theorem venta_devolucion_restaura ps ts t t' st pos p :
  Tipo t = "VENTA" →
  Tipo t' = "COMPRA" ∨ Tipo t' = "DEVOLUCION" →
  IDProducto t' = IDProducto t → Cantidad t' = Cantidad t →
  procesarTransacciones ps ts = Some st →
  esUltimo ps (IDProducto t) pos →
  productos st !! pos = Some p →
  GoInt.inRange (Stock p) →
  Cantidad t <= Stock p →
  procesarTransacciones ps (ts ++ [t; t']) = Some st.
Proof.
  intros Hv Hk Hid Hq Hst Hu0 Hp Hr Hge.
  assert (esUltimo (productos st) (IDProducto t) pos) as Hu.
  { by apply (procesar_esUltimo ps ts st (IDProducto t) pos Hst). }
  assert (procesarTransacciones ps (ts ++ [t])
          = Some (mkEstado
                    (<[pos := setStock p (GoInt.sub (Stock p) (Cantidad t))]>
                       (productos st))
                    (errores st))) as Hst1.
  { rewrite procesar_snoc, Hst. simpl.
    rewrite (paso_encontrado st t pos p Hu Hp), decide_True by done.
    by rewrite decide_False by lia. }
  replace (ts ++ [t; t']) with ((ts ++ [t]) ++ [t'])
    by (by rewrite <- (assoc_L (++))).
  assert (pos < length (productos st))%nat as Hlt by (by eapply lookup_lt_Some).
  rewrite (procesar_suma ps (ts ++ [t]) _ t' pos
             (setStock p (GoInt.sub (Stock p) (Cantidad t))) Hst1); simpl.
  - rewrite list_insert_insert_eq, setStock_setStock. simpl.
    rewrite Hq, GoInt_add_sub, setStock_id by done.
    rewrite list_insert_id by done. by destruct st.
  - rewrite Hid. by apply (procesar_esUltimo ps (ts ++ [t]) _ _ pos Hst1).
  - by apply list_lookup_insert_eq.
  - done.
Qed.

Lemma venta_devolucion_restaura_witness :
  procesarTransacciones [almacenLleno]
    ([compra "P1" 0] ++ [venta "P1" (-1); devolucion "P1" (-1)])
  = Some (mkEstado [almacenLleno] []).
Proof.
  apply (venta_devolucion_restaura [almacenLleno] [compra "P1" 0]
           (venta "P1" (-1)) (devolucion "P1" (-1))
           (mkEstado [almacenLleno] []) 0%nat almacenLleno).
  - reflexivity.
  - right. reflexivity.
  - reflexivity.
  - reflexivity.
  - by vm_compute.
  - apply construirIndice_Some. by vm_compute.
  - reflexivity.
  - by vm_compute.
  - by vm_compute.
Defined.

(** ** Transactions on different products *)

Lemma efecto_otro ps t pos p :
  esUltimo ps (IDProducto t) pos → ps !! pos = Some p →
  efecto ps t
  = match decidir p t with
    | (Some s, e) => (<[pos := setStock p s]> ps, e)
    | (None, e) => (ps, e)
    end.
Proof.
  intros Hu Hp. apply construirIndice_Some in Hu. unfold efecto.
  by rewrite Hu, Hp.
Qed.

Lemma efecto_ausente ps t :
  ¬ presente ps (IDProducto t) → efecto ps t = (ps, [msgNoEncontrado t]).
Proof.
  intros H. apply construirIndice_None in H. unfold efecto. by rewrite H.
Qed.

Lemma esUltimo_marco ps ps' id pos :
  marco <$> ps' = marco <$> ps → esUltimo ps' id pos ↔ esUltimo ps id pos.
Proof.
  intros Hm. rewrite <- !construirIndice_Some.
  by rewrite (construirIndice_ext ps' ps) by by apply marco_ID.
Qed.

Lemma presente_marco ps ps' id :
  marco <$> ps' = marco <$> ps → presente ps' id ↔ presente ps id.
Proof.
  intros Hm. rewrite !presente_esUltimo.
  by setoid_rewrite (esUltimo_marco ps ps' id _ Hm).
Qed.

Lemma esUltimo_efecto ps ta id pos :
  esUltimo (efecto ps ta).1 id pos ↔ esUltimo ps id pos.
Proof. apply esUltimo_marco, efecto_marco. Qed.

Lemma presente_efecto ps ta id :
  presente (efecto ps ta).1 id ↔ presente ps id.
Proof. apply presente_marco, efecto_marco. Qed.

(** Two iterations on different identifiers, in either order. *)
Lemma efecto_conmuta ps t1 t2 :
  IDProducto t1 ≠ IDProducto t2 →
  (efecto (efecto ps t1).1 t2).1 = (efecto (efecto ps t2).1 t1).1 ∧
  (efecto (efecto ps t1).1 t2).2 = (efecto ps t2).2 ∧
  (efecto (efecto ps t2).1 t1).2 = (efecto ps t1).2.
Proof.
  intros Hne.
  assert (∀ ta tb, IDProducto ta ≠ IDProducto tb →
            (efecto (efecto ps ta).1 tb).2 = (efecto ps tb).2 ∧
            ∀ posb pb, esUltimo ps (IDProducto tb) posb →
                       ps !! posb = Some pb →
                       (efecto ps ta).1 !! posb = Some pb) as Haux.
  { intros ta tb Hab.
    assert (∀ posb pb, esUltimo ps (IDProducto tb) posb →
                       ps !! posb = Some pb →
                       (efecto ps ta).1 !! posb = Some pb) as Hkeep.
    { intros posb pb Hub Hpb.
      destruct (construirIndice ps !! IDProducto ta) as [posa|] eqn:Ea.
      - apply construirIndice_Some in Ea.
        pose proof Ea as [(pa & Hpa & Hida) _].
        rewrite (efecto_otro ps ta posa pa Ea Hpa).
        destruct (decidir pa ta) as [[s|] e]; simpl; [|done].
        rewrite list_lookup_insert_ne; [done|]. intros ->.
        destruct Hub as [(q & Hq & Hidq) _]. simplify_eq. congruence.
      - apply construirIndice_None in Ea. by rewrite efecto_ausente. }
    split; [|done].
    destruct (construirIndice ps !! IDProducto tb) as [posb|] eqn:Eb.
    - apply construirIndice_Some in Eb.
      pose proof Eb as [(pb & Hpb & _) _].
      rewrite (efecto_otro ps tb posb pb Eb Hpb).
      rewrite (efecto_otro (efecto ps ta).1 tb posb pb).
      + by destruct (decidir pb tb) as [[s|] e].
      + by apply esUltimo_efecto.
      + by apply Hkeep.
    - apply construirIndice_None in Eb.
      rewrite (efecto_ausente ps tb Eb), efecto_ausente; [done|].
      by rewrite presente_efecto. }
  destruct (Haux t1 t2 Hne) as [He2 Hk2].
  destruct (Haux t2 t1 (not_eq_sym Hne)) as [He1 Hk1].
  split; [|done].
  destruct (construirIndice ps !! IDProducto t1) as [pos1|] eqn:E1;
    destruct (construirIndice ps !! IDProducto t2) as [pos2|] eqn:E2.
  - apply construirIndice_Some in E1, E2.
    pose proof E1 as [(p1 & Hp1 & Hid1) _].
    pose proof E2 as [(p2 & Hp2 & Hid2) _].
    assert (pos1 ≠ pos2) as Hpos by (intros ->; simplify_eq; congruence).
    rewrite (efecto_otro (efecto ps t1).1 t2 pos2 p2);
      [|by apply esUltimo_efecto|by apply Hk2].
    rewrite (efecto_otro (efecto ps t2).1 t1 pos1 p1);
      [|by apply esUltimo_efecto|by apply Hk1].
    rewrite (efecto_otro ps t1 pos1 p1 E1 Hp1).
    rewrite (efecto_otro ps t2 pos2 p2 E2 Hp2).
    destruct (decidir p1 t1) as [[s1|] e1], (decidir p2 t2) as [[s2|] e2];
      simpl; try done.
    by apply list_insert_insert_ne.
  - apply construirIndice_Some in E1. apply construirIndice_None in E2.
    rewrite (efecto_ausente ps t2 E2). simpl.
    rewrite efecto_ausente; [done|].
    by rewrite presente_efecto.
  - apply construirIndice_None in E1. apply construirIndice_Some in E2.
    rewrite (efecto_ausente ps t1 E1). simpl.
    rewrite (efecto_ausente (efecto ps t2).1 t1); [done|].
    by rewrite presente_efecto.
  - apply construirIndice_None in E1, E2.
    by rewrite (efecto_ausente ps t1 E1), (efecto_ausente ps t2 E2); simpl;
      rewrite (efecto_ausente ps t1 E1), (efecto_ausente ps t2 E2).
Qed.

(** X4.  Two consecutive transactions on different product identifiers can
    be swapped: both orders leave the same catalog, and each transaction
    adds the same error records ([e1] for the first, [e2] for the second,
    each empty or a single record) in either order, so the two error lists
    differ only in the order of these records. *)
Theorem transacciones_independientes ps ts t1 t2 :
  IDProducto t1 ≠ IDProducto t2 →
  ∃ st sa sb e1 e2,
    procesarTransacciones ps ts = Some st ∧
    procesarTransacciones ps (ts ++ [t1; t2]) = Some sa ∧
    procesarTransacciones ps (ts ++ [t2; t1]) = Some sb ∧
    productos sa = productos sb ∧
    errores sa = errores st ++ e1 ++ e2 ∧
    errores sb = errores st ++ e2 ++ e1 ∧
    (length e1 <= 1)%nat ∧ (length e2 <= 1)%nat.
Proof.
  intros Hne. destruct (procesar_marco ps ts) as (st & Hst & _).
  assert (∀ ta tb,
            procesarTransacciones ps (ts ++ [ta; tb])
            = Some (mkEstado
                      (efecto (efecto (productos st) ta).1 tb).1
                      (errores st ++ (efecto (productos st) ta).2
                         ++ (efecto (efecto (productos st) ta).1 tb).2)))
    as Hdos.
  { intros ta tb.
    replace (ts ++ [ta; tb]) with ((ts ++ [ta]) ++ [tb])
      by (by rewrite <- (assoc_L (++))).
    rewrite procesar_snoc, procesar_snoc, Hst. simpl.
    rewrite paso_efecto.
    remember (mkEstado (efecto (productos st) ta).1
                (errores st ++ (efecto (productos st) ta).2)) as st1 eqn:E1.
    simpl. rewrite (paso_efecto st1 tb). subst st1. simpl.
    by rewrite <- (assoc_L (++)). }
  destruct (efecto_conmuta (productos st) t1 t2 Hne) as (Hc & He2 & He1).
  eexists st, _, _, (efecto (productos st) t1).2, (efecto (productos st) t2).2.
  split; [done|]. split; [apply Hdos|]. split; [apply Hdos|]. simpl.
  split; [done|]. rewrite He2, He1. split; [done|]. split; [done|].
  assert (∀ t, (length (efecto (productos st) t).2 <= 1)%nat) as Hlen.
  { intros t. unfold efecto, decidir.
    destruct (construirIndice (productos st) !! IDProducto t); [|done].
    destruct (productos st !! n); [|simpl; lia].
    repeat case_decide; simpl; lia. }
  split; apply Hlen.
Qed.

Lemma transacciones_independientes_witness :
  ∃ st sa sb e1 e2,
    procesarTransacciones catalogo [compra "P2" 1] = Some st ∧
    procesarTransacciones catalogo
      ([compra "P2" 1] ++ [venta "P1" 9; ajuste "P2" 2]) = Some sa ∧
    procesarTransacciones catalogo
      ([compra "P2" 1] ++ [ajuste "P2" 2; venta "P1" 9]) = Some sb ∧
    productos sa = productos sb ∧
    errores sa = errores st ++ e1 ++ e2 ∧
    errores sb = errores st ++ e2 ++ e1 ∧
    (length e1 <= 1)%nat ∧ (length e2 <= 1)%nat.
Proof.
  apply (transacciones_independientes catalogo [compra "P2" 1]
           (venta "P1" 9) (ajuste "P2" 2)).
  discriminate.
Defined.

(** X5.  A transaction leaves every position of the catalog as it was,
    except the one its identifier resolves to; in particular it never
    changes a product with another identifier. *)
Theorem transaccion_no_toca_otros ps ts t :
  ∃ st st',
    procesarTransacciones ps ts = Some st ∧
    procesarTransacciones ps (ts ++ [t]) = Some st' ∧
    (∀ k : nat, ¬ esUltimo ps (IDProducto t) k →
                productos st' !! k = productos st !! k) ∧
    (∀ (k : nat) p, productos st !! k = Some p → ID p ≠ IDProducto t →
                    productos st' !! k = Some p).
Proof.
  destruct (procesar_marco ps ts) as (st & Hst & _).
  destruct (procesar_marco ps (ts ++ [t])) as (st' & Hst' & _).
  exists st, st'. split; [done|]. split; [done|].
  rewrite procesar_snoc, Hst in Hst'. simpl in Hst'.
  assert (∀ k : nat, ¬ esUltimo (productos st) (IDProducto t) k →
                     productos st' !! k = productos st !! k) as Hk.
  { intros k. by apply paso_solo_objetivo. }
  split.
  - intros k Hno. apply Hk.
    by rewrite (procesar_esUltimo ps ts st (IDProducto t) k Hst).
  - intros k p Hp Hid. rewrite Hk; [done|].
    intros [(q & Hq & Hidq) _]. by simplify_eq.
Qed.

(** * Reading and writing the files *)

(** ** [strconv.Itoa] and [strconv.Atoi] *)

Module StrconvFacts.
Import Strconv.

Lemma valorUint_acc d acc :
  valorUint d (Z.pos acc) = Z.pos (Pos.of_uint_acc d acc).
Proof.
  revert acc. induction d; intros acc; simpl; [done|..];
    (rewrite <- IHd; f_equal; lia).
Qed.

Lemma valorUint_of_uint d : valorUint d 0 = Z.of_N (Pos.of_uint d).
Proof.
  induction d; cbn [valorUint Pos.of_uint Z.of_N];
    rewrite ?Z.mul_0_l, ?Z.add_0_l, ?Z.add_0_r; [done|done|..];
    by rewrite valorUint_acc.
Qed.

Lemma valorUint_le d n : 0 <= n → n <= valorUint d n.
Proof.
  revert n. induction d; intros n Hn; simpl; [lia|..];
    (etrans; [|apply IHd]; lia).
Qed.

(** Reading the digits of a numeral whose value fits 64 bits never fails. *)
Lemma parseUint_string_of_uint d n :
  0 <= n → valorUint d n <= maxUint64 →
  parseUint (NilEmpty.string_of_uint d) n = inr (valorUint d n).
Proof.
  revert n. induction d; intros n Hn Hmax; [done|..];
    simpl in Hmax;
    (lazymatch type of Hmax with
     | valorUint _ ?m <= _ =>
         pose proof (valorUint_le d m ltac:(lia)) as Hle
     end);
    cbn [NilEmpty.string_of_uint parseUint];
    (lazymatch goal with
     | |- context [digito ?c] =>
         let v := eval vm_compute in (digito c) in
         change (digito c) with v; cbv beta iota
     end);
    (rewrite decide_False
       by (unfold cutoff, maxUint64 in *;
           change (2 ^ 64 - 1) with 18446744073709551615 in *;
           change (18446744073709551615 / 10 + 1)
             with 1844674407370955162; lia));
    (rewrite decide_False by lia); by apply IHd; [lia|].
Qed.

End StrconvFacts.

Lemma parseUint_ge s n v : Strconv.parseUint s n = inr v → 0 <= n → n <= v.
Proof.
  revert n. induction s as [|c s IH]; intros n Hv Hn; simpl in Hv.
  - by simplify_eq.
  - unfold Strconv.digito in Hv.
    destruct (decide _) as [Hd|]; [|done].
    repeat case_decide; try done. apply IH in Hv; lia.
Qed.

(** [Atoi] only returns values of type [int]. *)
Lemma atoi_inRange s z : Strconv.atoi s = inr z → GoInt.inRange z.
Proof.
  unfold Strconv.atoi. destruct s as [|c s']; [done|].
  destruct (if decide (c = "+"%char ∨ c = "-"%char) then s' else String c s')
    as [|c' ds] eqn:Eds; [done|].
  destruct (Strconv.parseUint (String c' ds) 0) as [k|un] eqn:Eun; [done|].
  apply parseUint_ge in Eun; [|done].
  unfold GoInt.inRange, GoInt.minInt, GoInt.maxInt, GoInt.intSize.
  case_bool_decide; repeat case_decide; intros; simplify_eq; lia.
Qed.

Lemma string_of_uint_cabeza d :
  d ≠ Decimal.Nil →
  ∃ c s', NilEmpty.string_of_uint d = String c s' ∧
          c ≠ "+"%char ∧ c ≠ "-"%char.
Proof. destruct d; [done|..]; intros _; eexists _, _; by split. Qed.

Lemma atoi_itoa z :
  GoInt.inRange z → Strconv.atoi (GoInt.itoa z) = inr z.
Proof.
  unfold GoInt.inRange, GoInt.minInt, GoInt.maxInt, GoInt.intSize.
  intros Hz. destruct z as [|p|p]; [done|..].
  - unfold GoInt.itoa. cbn [Z.to_int NilZero.string_of_int].
    pose proof (Unsigned.to_uint_nonnil p) as Hnil.
    pose proof (StrconvFacts.valorUint_of_uint (Pos.to_uint p)) as Hval.
    rewrite Unsigned.of_to in Hval. simpl in Hval.
    assert (NilZero.string_of_uint (Pos.to_uint p)
            = NilEmpty.string_of_uint (Pos.to_uint p)) as ->
      by (by destruct (Pos.to_uint p)).
    pose proof (StrconvFacts.parseUint_string_of_uint (Pos.to_uint p) 0)
      as Hparse.
    rewrite Hval in Hparse.
    destruct (string_of_uint_cabeza _ Hnil) as (c & s' & Hs & Hmas & Hmenos).
    rewrite Hs in *. unfold Strconv.atoi.
    rewrite bool_decide_eq_false_2, decide_False by tauto.
    rewrite Hparse by (unfold Strconv.maxUint64; lia).
    by rewrite decide_False by lia.
  - unfold GoInt.itoa. cbn [Z.to_int NilZero.string_of_int].
    pose proof (Unsigned.to_uint_nonnil p) as Hnil.
    pose proof (StrconvFacts.valorUint_of_uint (Pos.to_uint p)) as Hval.
    rewrite Unsigned.of_to in Hval. simpl in Hval.
    assert (NilZero.string_of_uint (Pos.to_uint p)
            = NilEmpty.string_of_uint (Pos.to_uint p)) as ->
      by (by destruct (Pos.to_uint p)).
    pose proof (StrconvFacts.parseUint_string_of_uint (Pos.to_uint p) 0)
      as Hparse.
    rewrite Hval in Hparse.
    destruct (string_of_uint_cabeza _ Hnil) as (c & s' & Hs & _).
    rewrite Hs in *. unfold Strconv.atoi.
    rewrite bool_decide_eq_true_2, decide_True by tauto.
    rewrite Hparse by (unfold Strconv.maxUint64; lia).
    rewrite decide_False by lia. f_equal.
Qed.

(** X7.  [strconv.Atoi] reads back what [strconv.Itoa] writes: for every
    [int] [z], [Atoi(Itoa(z))] is [z], with no error.  Hence two different
    [int]s never have the same text. *)
Theorem itoa_atoi_ida_y_vuelta z :
  GoInt.inRange z →
  Strconv.atoi (GoInt.itoa z) = inr z ∧
  ∀ z', GoInt.inRange z' → GoInt.itoa z' = GoInt.itoa z → z' = z.
Proof.
  intros Hz. split; [by apply atoi_itoa|].
  intros z' Hz' Heq. pose proof (atoi_itoa z Hz) as H1.
  pose proof (atoi_itoa z' Hz') as H2. rewrite Heq, H1 in H2.
  by simplify_eq.
Qed.

Lemma itoa_atoi_ida_y_vuelta_witness :
  Strconv.atoi (GoInt.itoa GoInt.minInt) = inr GoInt.minInt ∧
  ∀ z', GoInt.inRange z' → GoInt.itoa z' = GoInt.itoa GoInt.minInt →
        z' = GoInt.minInt.
Proof. apply (itoa_atoi_ida_y_vuelta GoInt.minInt). by vm_compute. Defined.

Example atoi_ejemplos :
  Strconv.atoi "+007" = inr 7 ∧
  Strconv.atoi "-0" = inr 0 ∧
  Strconv.atoi "" = inl (NumError "Atoi" "" ErrSyntax) ∧
  Strconv.atoi "-" = inl (NumError "Atoi" "-" ErrSyntax) ∧
  Strconv.atoi "12a" = inl (NumError "Atoi" "12a" ErrSyntax) ∧
  Strconv.atoi " 5" = inl (NumError "Atoi" " 5" ErrSyntax) ∧
  Strconv.atoi "9223372036854775807" = inr 9223372036854775807 ∧
  Strconv.atoi "9223372036854775808"
  = inl (NumError "Atoi" "9223372036854775808" ErrRange) ∧
  Strconv.atoi "-9223372036854775808" = inr (-9223372036854775808) ∧
  Strconv.atoi "99999999999999999999x"
  = inl (NumError "Atoi" "99999999999999999999x" ErrRange).
Proof. repeat split; by vm_compute. Qed.

(** ** The readers *)

(** The loop of [leerTransacciones] over records it can take in: it goes
    through them, keeps the transactions of those with four fields or
    more, in order, and carries on with the rest at the right index. *)
Lemma leerTrans_app i pre rest trans :
  i ≠ 0%nat → Forall filaTransOk pre →
  ∃ ts, Forall2 transaccionDe (filter (λ r, (4 <= length r)%nat) pre) ts ∧
        leerTrans i (pre ++ rest) trans
        = leerTrans (i + length pre) rest (trans ++ ts).
Proof.
  revert i trans. induction pre as [|rec pre IH]; intros i trans Hi Hok.
  - exists []. split; [constructor|]. simpl.
    by rewrite Nat.add_0_r, app_nil_r.
  - apply Forall_cons in Hok as [Hrec Hok].
    cbn [app leerTrans length]. rewrite (decide_False (P := i = 0%nat)) by done.
    replace (i + S (length pre))%nat with (S i + length pre)%nat by lia.
    rewrite filter_cons.
    destruct Hrec as [Hcorto|[t (tipo & id & cant & fecha & resto & -> & Ht & Hat)]].
    + rewrite (decide_False (P := (4 <= length rec)%nat)) by lia.
      destruct (IH (S i) trans ltac:(done) Hok) as (ts & Hts & Heq).
      exists ts. split; [done|].
      by destruct rec as [|a [|b [|c [|d r]]]]; [..|simpl in Hcorto; lia].
    + rewrite (decide_True (P := (4 <= length _)%nat)) by (simpl; lia).
      rewrite Hat.
      destruct (IH (S i) (trans ++ [mkTransaccion tipo id (Cantidad t) fecha])
                  ltac:(done) Hok) as (ts & Hts & Heq).
      exists (t :: ts). split.
      * constructor; [|done]. by exists tipo, id, cant, fecha, resto.
      * rewrite Heq, <- (assoc_L (++)). simpl. by rewrite <- Ht.
Qed.

(** X8.  [leerTransacciones] skips the first record of the file, whatever
    it holds, and every record with fewer than four fields.  If the third
    field of each remaining record is a number for [Atoi], it returns, in
    file order, one transaction per remaining record: its four first
    fields, the quantity read by [Atoi] (so an [int]). *)
Theorem leerTransacciones_ok cab filas :
  Forall filaTransOk filas →
  ∃ ts, leerTransacciones (Registros (cab :: filas)) = inr ts ∧
        Forall2 transaccionDe (filter (λ r, (4 <= length r)%nat) filas) ts ∧
        Forall (λ t, GoInt.inRange (Cantidad t)) ts.
Proof.
  intros Hok.
  destruct (leerTrans_app 1 filas [] [] ltac:(done) Hok) as (ts & Hts & Heq).
  exists ts. split; [|split; [done|]].
  - simpl. rewrite app_nil_r in Heq. by rewrite Heq.
  - clear Heq. induction Hts as [|rec t recs ts Ht _ IH]; constructor; [|done].
    destruct Ht as (? & ? & cant & ? & ? & _ & _ & Hat).
    by apply (atoi_inRange cant).
Qed.

Lemma leerTransacciones_ok_witness :
  ∃ ts,
    leerTransacciones
      (Registros (["Tipo"; "ID"; "Cantidad"; "Fecha"]
                    :: [["VENTA"; "P1"; "5"; "2024-01-15"];
                        ["COMPRA"; "P2"; "-3"; "2024-01-16"]]))
    = inr ts ∧
    Forall2 transaccionDe
      (filter (λ r, (4 <= length r)%nat)
         [["VENTA"; "P1"; "5"; "2024-01-15"];
          ["COMPRA"; "P2"; "-3"; "2024-01-16"]]) ts ∧
    Forall (λ t, GoInt.inRange (Cantidad t)) ts.
Proof.
  apply (leerTransacciones_ok ["Tipo"; "ID"; "Cantidad"; "Fecha"]).
  repeat (apply Forall_cons; split); try apply Forall_nil_2.
  - right. exists (venta "P1" 5).
    by exists "VENTA", "P1", "5", "2024-01-15", [].
  - right. exists (mkTransaccion "COMPRA" "P2" (-3) "2024-01-16").
    by exists "COMPRA", "P2", "-3", "2024-01-16", [].
Defined.

(** X9.  The first record (after the skipped ones) whose quantity [Atoi]
    rejects makes [leerTransacciones] fail: no transaction is returned,
    and the error wraps the error of [Atoi] under a message with the
    number of the record, counted from 1 with the header. *)
Theorem leerTransacciones_error cab pre tipo id cantidad fecha resto post err :
  Forall filaTransOk pre →
  Strconv.atoi cantidad = inl err →
  leerTransacciones
    (Registros
       (cab :: pre ++ (tipo :: id :: cantidad :: fecha :: resto) :: post))
  = inl (Errorf ("cantidad inválida en línea "
                   +:+ GoInt.itoa (Z.of_nat (length pre) + 2) +:+ ": ")
           err).
Proof.
  intros Hok Herr.
  destruct (leerTrans_app 1 pre
              ((tipo :: id :: cantidad :: fecha :: resto) :: post) []
              ltac:(done) Hok) as (ts & _ & Heq).
  cbn [leerTransacciones leerTrans app].
  rewrite (decide_True (P := 0%nat = 0%nat)) by done. rewrite Heq.
  cbn [leerTrans]. rewrite decide_False by lia. rewrite Herr.
  by replace (Z.of_nat (1 + length pre) + 1)
    with (Z.of_nat (length pre) + 2) by lia.
Qed.

Lemma leerTransacciones_error_witness :
  leerTransacciones
    (Registros
       (["Tipo"; "ID"; "Cantidad"; "Fecha"]
          :: [["VENTA"; "P1"; "5"; "2024-01-15"];
              ["COMPRA"; "P2"; "-3"; "2024-01-16"]]
          ++ ["VENTA"; "P1"; "cinco"; "2024-01-17"]
          :: [["VENTA"; "P1"; "x"; "2024-01-18"]]))
  = inl (Errorf ("cantidad inválida en línea "
                   +:+ GoInt.itoa (Z.of_nat 2 + 2) +:+ ": ")
           (NumError "Atoi" "cinco" ErrSyntax)).
Proof.
  apply (leerTransacciones_error ["Tipo"; "ID"; "Cantidad"; "Fecha"]
           [["VENTA"; "P1"; "5"; "2024-01-15"];
            ["COMPRA"; "P2"; "-3"; "2024-01-16"]]).
  - repeat (apply Forall_cons; split); try apply Forall_nil_2.
    + right. exists (venta "P1" 5).
      by exists "VENTA", "P1", "5", "2024-01-15", [].
    + right. exists (mkTransaccion "COMPRA" "P2" (-3) "2024-01-16").
      by exists "COMPRA", "P2", "-3", "2024-01-16", [].
  - by vm_compute.
Defined.

(** The loop of [leerInventario] over records it can take in. *)
Lemma leerProductos_app parseFloat i pre rest productos :
  i ≠ 0%nat → Forall (filaProdOk parseFloat) pre →
  ∃ ps, Forall2 (productoDe parseFloat)
          (filter (λ r, (5 <= length r)%nat) pre) ps ∧
        leerProductos parseFloat i (pre ++ rest) productos
        = leerProductos parseFloat (i + length pre) rest (productos ++ ps).
Proof.
  revert i productos.
  induction pre as [|rec pre IH]; intros i productos Hi Hok.
  - exists []. split; [constructor|]. simpl.
    by rewrite Nat.add_0_r, app_nil_r.
  - apply Forall_cons in Hok as [Hrec Hok].
    cbn [app leerProductos length].
    rewrite (decide_False (P := i = 0%nat)) by done.
    replace (i + S (length pre))%nat with (S i + length pre)%nat by lia.
    rewrite filter_cons.
    destruct Hrec as [Hcorto|[p (id & nombre & cat & precio & stock & resto
                                  & -> & Hp & Hpf & Hat)]].
    + rewrite (decide_False (P := (5 <= length rec)%nat)) by lia.
      destruct (IH (S i) productos ltac:(done) Hok) as (ps & Hps & Heq).
      exists ps. split; [done|].
      by destruct rec as [|a [|b [|c [|d [|e r]]]]];
        [..|simpl in Hcorto; lia].
    + rewrite (decide_True (P := (5 <= length _)%nat)) by (simpl; lia).
      rewrite Hpf, Hat.
      destruct (IH (S i)
                  (productos
                     ++ [mkProducto id nombre cat (Precio p) (Stock p)])
                  ltac:(done) Hok) as (ps & Hps & Heq).
      exists (p :: ps). split.
      * constructor; [|done].
        by exists id, nombre, cat, precio, stock, resto.
      * rewrite Heq, <- (assoc_L (++)). simpl. by rewrite <- Hp.
Qed.

(** Whatever the records, the stocks [leerInventario] returns are [int]s. *)
Lemma leerProductos_inRange parseFloat i records productos ps :
  leerProductos parseFloat i records productos = inr ps →
  Forall (λ p, GoInt.inRange (Stock p)) productos →
  Forall (λ p, GoInt.inRange (Stock p)) ps.
Proof.
  revert i productos.
  induction records as [|rec records IH]; intros i productos Hps Hall.
  - simpl in Hps. by simplify_eq.
  - cbn [leerProductos] in Hps. case_decide; [by eapply IH|].
    destruct rec as [|a [|b [|c [|d [|e r]]]]]; try (by eapply IH).
    destruct (parseFloat d) as [|x]; [done|].
    destruct (Strconv.atoi e) as [|z] eqn:Hat; [done|].
    eapply IH; [done|]. apply Forall_app. split; [done|].
    apply Forall_singleton. simpl. by eapply atoi_inRange.
Qed.

(** X10.  [leerInventario] skips the first record of the file and every
    record with fewer than five fields.  If, in each remaining record, the
    fourth field is a number for [ParseFloat] and the fifth a number for
    [Atoi], it returns, in file order, one product per remaining record:
    its three first fields, the price and the stock read, the stock being
    an [int]. *)
Theorem leerInventario_ok parseFloat cab filas :
  Forall (filaProdOk parseFloat) filas →
  ∃ ps, leerInventario parseFloat (Registros (cab :: filas)) = inr ps ∧
        Forall2 (productoDe parseFloat)
          (filter (λ r, (5 <= length r)%nat) filas) ps ∧
        Forall (λ p, GoInt.inRange (Stock p)) ps.
Proof.
  intros Hok.
  destruct (leerProductos_app parseFloat 1 filas [] [] ltac:(done) Hok)
    as (ps & Hps & Heq).
  rewrite app_nil_r in Heq. simpl in Heq.
  exists ps. split; [by simpl; rewrite Heq|]. split; [done|].
  apply (leerProductos_inRange parseFloat 1 filas [] ps); [|done].
  by rewrite Heq.
Qed.

Lemma leerInventario_ok_witness :
  ∃ ps,
    leerInventario parseFloatMuestra
      (Registros (cabecera
                    :: [["P1"; "Teclado"; "Perifericos"; "19.50"; "5"];
                        ["P2"; "Monitor"; "Pantallas"; "149.50"; "10"]]))
    = inr ps ∧
    Forall2 (productoDe parseFloatMuestra)
      (filter (λ r, (5 <= length r)%nat)
         [["P1"; "Teclado"; "Perifericos"; "19.50"; "5"];
          ["P2"; "Monitor"; "Pantallas"; "149.50"; "10"]]) ps ∧
    Forall (λ p, GoInt.inRange (Stock p)) ps.
Proof.
  apply (leerInventario_ok parseFloatMuestra cabecera).
  repeat (apply Forall_cons; split); try apply Forall_nil_2.
  - right. exists teclado.
    by exists "P1", "Teclado", "Perifericos", "19.50", "5", [].
  - right. exists monitor.
    by exists "P2", "Monitor", "Pantallas", "149.50", "10", [].
Defined.

(** X11.  The first record (after the skipped ones) with a number that
    does not parse makes [leerInventario] fail, with no product returned
    and the number of the record, counted from 1 with the header, in the
    message.  The price is looked at first: a bad price is reported
    whatever the stock field holds, a bad stock only under a good price. *)
Theorem leerInventario_error parseFloat cab pre id nombre categoria precio
    stock resto post :
  Forall (filaProdOk parseFloat) pre →
  (∀ k, parseFloat precio = inl k →
     leerInventario parseFloat
       (Registros
          (cab :: pre
             ++ (id :: nombre :: categoria :: precio :: stock :: resto)
             :: post))
     = inl (Errorf ("precio inválido en línea "
                      +:+ GoInt.itoa (Z.of_nat (length pre) + 2) +:+ ": ")
              (NumError "ParseFloat" precio k))) ∧
  (∀ x err, parseFloat precio = inr x → Strconv.atoi stock = inl err →
     leerInventario parseFloat
       (Registros
          (cab :: pre
             ++ (id :: nombre :: categoria :: precio :: stock :: resto)
             :: post))
     = inl (Errorf ("stock inválido en línea "
                      +:+ GoInt.itoa (Z.of_nat (length pre) + 2) +:+ ": ")
              err)).
Proof.
  intros Hok.
  destruct (leerProductos_app parseFloat 1 pre
              ((id :: nombre :: categoria :: precio :: stock :: resto)
                 :: post) [] ltac:(done) Hok) as (ps & _ & Heq).
  replace (Z.of_nat (length pre) + 2)
    with (Z.of_nat (1 + length pre) + 1) by lia.
  split; [intros k Hk|intros x err Hx Herr];
    cbn [leerInventario leerProductos app];
    rewrite (decide_True (P := 0%nat = 0%nat)) by done; rewrite Heq;
    cbn [leerProductos]; rewrite decide_False by lia.
  - by rewrite Hk.
  - by rewrite Hx, Herr.
Qed.

Lemma leerInventario_error_witness :
  (∀ k, parseFloatMuestra "gratis" = inl k →
     leerInventario parseFloatMuestra
       (Registros
          (cabecera :: [["P1"; "Teclado"; "Perifericos"; "19.50"; "5"]]
             ++ ("P2" :: "Monitor" :: "Pantallas" :: "gratis" :: "muchos"
                   :: [])
             :: []))
     = inl (Errorf ("precio inválido en línea "
                      +:+ GoInt.itoa (Z.of_nat 1 + 2) +:+ ": ")
              (NumError "ParseFloat" "gratis" k))) ∧
  (∀ x err, parseFloatMuestra "gratis" = inr x →
     Strconv.atoi "muchos" = inl err →
     leerInventario parseFloatMuestra
       (Registros
          (cabecera :: [["P1"; "Teclado"; "Perifericos"; "19.50"; "5"]]
             ++ ("P2" :: "Monitor" :: "Pantallas" :: "gratis" :: "muchos"
                   :: [])
             :: []))
     = inl (Errorf ("stock inválido en línea "
                      +:+ GoInt.itoa (Z.of_nat 1 + 2) +:+ ": ")
              err)).
Proof.
  apply (leerInventario_error parseFloatMuestra cabecera
           [["P1"; "Teclado"; "Perifericos"; "19.50"; "5"]]).
  repeat (apply Forall_cons; split); try apply Forall_nil_2.
  right. exists teclado.
  by exists "P1", "Teclado", "Perifericos", "19.50", "5", [].
Defined.

(** ** Writing the inventory and reading it back *)

Lemma escribirRegistros_ok formatPrecio escribe ps w :
  (∀ w' r, escribe w' r = None) →
  escribirRegistros formatPrecio escribe ps w
  = (w ++ (registro formatPrecio <$> ps), None).
Proof.
  intros Hesc. revert w. induction ps as [|p ps IH]; intros w; simpl.
  - by rewrite app_nil_r.
  - rewrite Hesc, IH. by rewrite <- (assoc_L (++)).
Qed.

(** The loop of [leerInventario] over the records [escribirInventario]
    writes for products with [int] stocks and prices that parse back. *)
Lemma leerProductos_registros parseFloat formatPrecio ps i productos :
  i ≠ 0%nat →
  Forall (λ p, GoInt.inRange (Stock p)) ps →
  Forall (λ p, ∃ x, parseFloat (formatPrecio (Precio p)) = inr x) ps →
  ∃ ps',
    leerProductos parseFloat i (registro formatPrecio <$> ps) productos
    = inr (productos ++ ps') ∧
    Forall2 (λ p p', ID p' = ID p ∧ Nombre p' = Nombre p ∧
                     Categoria p' = Categoria p ∧ Stock p' = Stock p ∧
                     parseFloat (formatPrecio (Precio p)) = inr (Precio p'))
      ps ps'.
Proof.
  revert i productos.
  induction ps as [|p ps IH]; intros i productos Hi Hr Hx.
  - exists []. split; [by simpl; rewrite app_nil_r|constructor].
  - apply Forall_cons in Hr as [Hrp Hr]. apply Forall_cons in Hx as [[x Hxp] Hx].
    rewrite fmap_cons. unfold registro at 1. cbn [leerProductos].
    rewrite decide_False by done. rewrite Hxp, (atoi_itoa _ Hrp).
    destruct (IH (S i)
                (productos
                   ++ [mkProducto (ID p) (Nombre p) (Categoria p) x (Stock p)])
                ltac:(done) Hr Hx) as (ps' & Heq & Hps').
    exists (mkProducto (ID p) (Nombre p) (Categoria p) x (Stock p) :: ps').
    split; [by rewrite Heq, <- (assoc_L (++))|]. by constructor.
Qed.

(** X12.  When no write fails, [escribirInventario] writes the header and
    then one record per product, in order; and if the stocks are [int]s
    and the formatted prices are numbers for [ParseFloat], the record loop
    of [leerInventario] run on these records returns as many products, in
    the same order, with the same identifier, name, category and stock,
    and the price read back from the formatted one. *)
Theorem escribir_leer parseFloat formatPrecio escribe ps :
  (∀ w r, escribe w r = None) →
  Forall (λ p, GoInt.inRange (Stock p)) ps →
  Forall (λ p, ∃ x, parseFloat (formatPrecio (Precio p)) = inr x) ps →
  ∃ ps',
    escribirInventario formatPrecio escribe None ps
    = (cabecera :: (registro formatPrecio <$> ps), None) ∧
    leerInventario parseFloat
      (Registros (cabecera :: (registro formatPrecio <$> ps)))
    = inr ps' ∧
    Forall2 (λ p p', ID p' = ID p ∧ Nombre p' = Nombre p ∧
                     Categoria p' = Categoria p ∧ Stock p' = Stock p ∧
                     parseFloat (formatPrecio (Precio p)) = inr (Precio p'))
      ps ps'.
Proof.
  intros Hesc Hr Hx.
  destruct (leerProductos_registros parseFloat formatPrecio ps 1 []
              ltac:(done) Hr Hx) as (ps' & Heq & Hps').
  exists ps'. split; [|split; [|done]].
  - unfold escribirInventario. rewrite Hesc.
    by rewrite escribirRegistros_ok.
  - by simpl.
Qed.

Lemma escribir_leer_witness :
  ∃ ps',
    escribirInventario formatPrecioMuestra escribeSiempre None catalogo
    = (cabecera :: (registro formatPrecioMuestra <$> catalogo), None) ∧
    leerInventario parseFloatMuestra
      (Registros (cabecera :: (registro formatPrecioMuestra <$> catalogo)))
    = inr ps' ∧
    Forall2 (λ p p', ID p' = ID p ∧ Nombre p' = Nombre p ∧
                     Categoria p' = Categoria p ∧ Stock p' = Stock p ∧
                     parseFloatMuestra (formatPrecioMuestra (Precio p))
                     = inr (Precio p'))
      catalogo ps'.
Proof.
  apply (escribir_leer parseFloatMuestra formatPrecioMuestra escribeSiempre
           catalogo).
  - reflexivity.
  - repeat (apply Forall_cons; split); try apply Forall_nil_2; by vm_compute.
  - repeat (apply Forall_cons; split); try apply Forall_nil_2;
      eexists; by vm_compute.
Defined.

(** X13.  The pipeline of [main] closes on itself: an inventory read by
    [leerInventario], run through [procesarTransacciones] and written by
    [escribirInventario] (no write failing, prices that parse back once
    formatted) is a file that [leerInventario] reads again, into the
    catalog the run has left, price formatting apart.  No condition on
    the stocks is needed: those read are [int]s and the run keeps them
    so. *)
Theorem ciclo_inventario parseFloat formatPrecio escribe records ps ts :
  (∀ w r, escribe w r = None) →
  leerInventario parseFloat (Registros records) = inr ps →
  Forall (λ p, ∃ x, parseFloat (formatPrecio (Precio p)) = inr x) ps →
  ∃ st ps',
    procesarTransacciones ps ts = Some st ∧
    escribirInventario formatPrecio escribe None (productos st)
    = (cabecera :: (registro formatPrecio <$> productos st), None) ∧
    leerInventario parseFloat
      (Registros (cabecera :: (registro formatPrecio <$> productos st)))
    = inr ps' ∧
    Forall2 (λ p p', ID p' = ID p ∧ Nombre p' = Nombre p ∧
                     Categoria p' = Categoria p ∧ Stock p' = Stock p ∧
                     parseFloat (formatPrecio (Precio p)) = inr (Precio p'))
      (productos st) ps'.
Proof.
  intros Hesc Hleer Hx.
  destruct (procesar_marco ps ts) as (st & Hst & Hm).
  assert (Forall (λ p, GoInt.inRange (Stock p)) (productos st)) as Hr.
  { apply (procesar_inRange ps ts st); [|done].
    by apply (leerProductos_inRange parseFloat 0 records [] ps). }
  assert (Forall (λ p, ∃ x, parseFloat (formatPrecio (Precio p)) = inr x)
            (productos st)) as Hx'.
  { assert (Precio <$> productos st = Precio <$> ps) as HP.
    { change Precio
        with ((λ m : string * string * string * float, m.2) ∘ marco).
      by rewrite !list_fmap_compose, Hm. }
    apply (Forall_fmap Precio
             (λ y, ∃ x, parseFloat (formatPrecio y) = inr x)).
    rewrite HP. by apply Forall_fmap. }
  destruct (leerProductos_registros parseFloat formatPrecio (productos st) 1
              [] ltac:(done) Hr Hx') as (ps' & Heq & Hps').
  exists st, ps'. split; [done|]. split; [|split; [by simpl|done]].
  unfold escribirInventario. rewrite Hesc. by rewrite escribirRegistros_ok.
Qed.

Lemma ciclo_inventario_witness :
  ∃ st ps',
    procesarTransacciones catalogo [venta "P1" 2; compra "P2" 5] = Some st ∧
    escribirInventario formatPrecioMuestra escribeSiempre None (productos st)
    = (cabecera :: (registro formatPrecioMuestra <$> productos st), None) ∧
    leerInventario parseFloatMuestra
      (Registros
         (cabecera :: (registro formatPrecioMuestra <$> productos st)))
    = inr ps' ∧
    Forall2 (λ p p', ID p' = ID p ∧ Nombre p' = Nombre p ∧
                     Categoria p' = Categoria p ∧ Stock p' = Stock p ∧
                     parseFloatMuestra (formatPrecioMuestra (Precio p))
                     = inr (Precio p'))
      (productos st) ps'.
Proof.
  apply (ciclo_inventario parseFloatMuestra formatPrecioMuestra
           escribeSiempre
           (cabecera :: [["P1"; "Teclado"; "Perifericos"; "19.50"; "5"];
                         ["P2"; "Monitor"; "Pantallas"; "149.50"; "10"]])
           catalogo [venta "P1" 2; compra "P2" 5]).
  - reflexivity.
  - by vm_compute.
  - repeat (apply Forall_cons; split); try apply Forall_nil_2;
      eexists; by vm_compute.
Defined.

(** * Pruebas/hola *)

Lemma land_2 x : Z.land x 2 = if Z.testbit x 1 then 2 else 0.
Proof.
  apply Z.bits_inj'. intros n Hn. rewrite Z.land_spec.
  change 2 with (2 ^ 1) at 1. rewrite Z.pow2_bits_eqb by lia.
  destruct (Z.eqb_spec 1 n) as [<-|Hne].
  - rewrite andb_true_r. destruct (Z.testbit x 1); [done|].
    by rewrite Z.bits_0.
  - rewrite andb_false_r. destruct (Z.testbit x 1); [|by rewrite Z.bits_0].
    change 2 with (2 ^ 1). rewrite Z.pow2_bits_eqb by lia.
    symmetry. by apply Z.eqb_neq.
Qed.

Lemma dereference_bit x :
  dereference x = if Z.testbit x 1 then x - 2 else x + 2.
Proof.
  unfold dereference. destruct (Z.testbit x 1) eqn:Hb.
  - assert (Z.land (Z.lxor x 2) 2 = 0) as Hland.
    { rewrite land_2, Z.lxor_spec, Hb. done. }
    apply Z.add_nocarry_lxor in Hland.
    rewrite Z.lxor_assoc, Z.lxor_nilpotent, Z.lxor_0_r in Hland. lia.
  - symmetry. apply Z.add_nocarry_lxor. by rewrite land_2, Hb.
Qed.

Lemma testbit_1_mod4 x : Z.testbit x 1 = bool_decide (2 <= x mod 4).
Proof.
  rewrite Z.testbit_odd, Z.shiftr_div_pow2 by lia. change (2 ^ 1) with 2.
  pose proof (Z.div_mod x 2 ltac:(lia)) as H2.
  pose proof (Z.mod_pos_bound x 2 ltac:(lia)) as Hb2.
  pose proof (Z.div_mod (x / 2) 2 ltac:(lia)) as H4.
  pose proof (Z.mod_pos_bound (x / 2) 2 ltac:(lia)) as Hb4.
  assert (x mod 4 = 2 * ((x / 2) mod 2) + x mod 2) as Hm.
  { symmetry. apply (Z.mod_unique_pos x 4 (x / 2 / 2)); lia. }
  rewrite Hm. pose proof (Zmod_odd (x / 2)) as Ho.
  destruct (Z.odd (x / 2)); case_bool_decide; lia.
Qed.

(** X14.  [dereference] is not a square: it flips the bit of weight 2 of
    its argument.  So it moves every [int] by exactly 2, up when that bit
    is clear and down when it is set, without ever leaving the [int]
    range, and applying it twice gives the argument back. *)
Theorem dereference_involutiva x :
  GoInt.inRange x →
  GoInt.inRange (dereference x) ∧
  dereference (dereference x) = x ∧
  dereference x = (if Z.testbit x 1 then x - 2 else x + 2).
Proof.
  intros Hx. split; [|split].
  - rewrite dereference_bit, testbit_1_mod4.
    unfold GoInt.inRange, GoInt.minInt, GoInt.maxInt, GoInt.intSize in *.
    pose proof (Z.div_mod x 4 ltac:(lia)) as Hd.
    pose proof (Z.mod_pos_bound x 4 ltac:(lia)) as Hb.
    case_bool_decide; lia.
  - unfold dereference.
    by rewrite Z.lxor_assoc, Z.lxor_nilpotent, Z.lxor_0_r.
  - apply dereference_bit.
Qed.

Lemma dereference_involutiva_witness :
  GoInt.inRange (dereference 4) ∧
  dereference (dereference 4) = 4 ∧
  dereference 4 = (if Z.testbit 4 1 then 4 - 2 else 4 + 2).
Proof. apply (dereference_involutiva 4). by vm_compute. Defined.

Example dereference_4 : dereference 4 = 6 ∧ dereference (-1) = -3.
Proof. by vm_compute. Qed.

(** * A transaction is applied or reported, never both *)

(** X6.  No transaction both changes the catalog and adds an error
    record: after any transaction either the error list is as it was, or
    the whole catalog is. *)
Theorem aplicada_o_registrada ps ts t :
  ∃ st st',
    procesarTransacciones ps ts = Some st ∧
    procesarTransacciones ps (ts ++ [t]) = Some st' ∧
    (errores st' = errores st ∨ productos st' = productos st).
Proof.
  destruct (procesar_marco ps ts) as (st & Hst & _).
  eexists st, _. split; [done|].
  rewrite procesar_snoc, Hst. simpl. rewrite paso_efecto.
  split; [done|]. simpl. unfold efecto, decidir.
  destruct (construirIndice (productos st) !! IDProducto t); [|by right].
  destruct (productos st !! n); [|by right].
  repeat case_decide; simpl; rewrite ?app_nil_r; auto.
Qed.
